(** * care-tap-ai: patient-identifier extraction and the guarded AI-diagnosis request

    A shallow embedding of
    - [extractPatientId] (the NFC scanner component),
    - [checkRateLimit] (both edge functions carry the same copy), and
    - the [serve] handler of the [ai-diagnosis] edge function,
    followed by the properties the specification states about them.

    Conventions.
    - A JavaScript string is the list of its UTF-16 code units ([jsstring]);
      [js "..."] embeds an ASCII literal.
    - Platform and library calls whose code is not part of the repository
      (zod's [uuid] check, the WHATWG URL parser, [Number::toString]) are
      Section variables; the facts assumed about them are Section hypotheses.
    - The outcome of every awaited external call of the handler is a field of
      the record [env]; the handler is a function of [env] and of the
      process-wide rate-limit map, in a small monad with early [return] and
      [throw]. *)

From Stdlib Require Import ZArith NArith List Bool Ascii String DecimalString Sorted Lia.
From stdpp Require Import base option gmap list.
Import ListNotations.
Local Open Scope Z_scope.

(* ================================================================== *)
(** * Part I. Definitions *)
(* ================================================================== *)

(** ** JavaScript strings *)

Definition jsstring : Type := list N.

Definition js (s : string) : jsstring :=
  map N_of_ascii (list_ascii_of_string s).
Arguments js s%_string.

(** A literal written with ['] where the string has a double quote. *)
Definition jsq (s : string) : jsstring :=
  map (fun c => if (c =? 0x27)%N then 0x22%N else c) (js s).
Arguments jsq s%_string.

Definition jsstring_eqb (a b : jsstring) : bool := bool_decide (a = b).

(** [WhiteSpace] and [LineTerminator] code units, the ones
    [String.prototype.trim] strips. *)
Definition is_js_whitespace (c : N) : bool :=
  existsb (N.eqb c)
    [ 0x09; 0x0A; 0x0B; 0x0C; 0x0D; 0x20; 0xA0; 0x1680;
      0x2000; 0x2001; 0x2002; 0x2003; 0x2004; 0x2005; 0x2006; 0x2007;
      0x2008; 0x2009; 0x200A; 0x2028; 0x2029; 0x202F; 0x205F; 0x3000;
      0xFEFF ]%N.

Fixpoint trimStart (s : jsstring) : jsstring :=
  match s with
  | c :: s' => if is_js_whitespace c then trimStart s' else s
  | [] => []
  end.

Definition trimEnd (s : jsstring) : jsstring := rev (trimStart (rev s)).

Definition trim (s : jsstring) : jsstring := trimEnd (trimStart s).

(** Character classes of the regular expressions. *)
Definition is_digit (c : N) : bool := ((0x30 <=? c) && (c <=? 0x39))%N.

Definition is_hex (c : N) : bool :=
  (is_digit c || ((0x41 <=? c) && (c <=? 0x46)) || ((0x61 <=? c) && (c <=? 0x66)))%N.

(** [[0-9a-fA-F-]] *)
Definition is_hex_or_dash (c : N) : bool := is_hex c || (c =? 0x2D)%N.

Fixpoint strip_prefix (p s : jsstring) : option jsstring :=
  match p, s with
  | [], _ => Some s
  | a :: p', b :: s' => if (a =? b)%N then strip_prefix p' s' else None
  | _ :: _, [] => None
  end.

(** ** The identifier extractor (NFCScanner component) *)

(** [pathname.match(/^\/patient\/([0-9a-fA-F-]{36})$/)]: the captured group,
    or [None] for JavaScript's [null]. *)
Definition match_patient_path (pathname : jsstring) : option jsstring :=
  match strip_prefix (js "/patient/") pathname with
  | Some g =>
      if (length g =? 36)%nat && forallb is_hex_or_dash g then Some g else None
  | None => None
  end.

Section Extractor.

(** [patientIdSchema.safeParse(s).success] for
    [patientIdSchema = z.string().uuid(...)]; on success [.data] is [s]. *)
Variable patientIdSchema_safeParse : jsstring -> bool.

(** [new URL(s).pathname]; [None] when the constructor throws. *)
Variable URL_pathname : jsstring -> option jsstring.

Definition extractPatientId (rawData : jsstring) : option jsstring :=
  let trimmed := trim rawData in
  if patientIdSchema_safeParse trimmed then Some trimmed
  else
    match URL_pathname trimmed with
    | None => None                                   (* catch { return null } *)
    | Some pathname =>
        match match_patient_path pathname with
        | None => None                               (* !match?.[1] *)
        | Some [] => None                            (* !match?.[1] *)
        | Some g => if patientIdSchema_safeParse g then Some g else None
        end
    end.

End Extractor.

(** The pattern of [uuid()] in zod 3.23: five groups of 8, 4, 4, 4 and 12
    hexadecimal digits of either case, joined by dashes.  It instantiates
    [patientIdSchema_safeParse] in the examples. *)
Fixpoint hex_run (n : nat) (s : jsstring) : option jsstring :=
  match n, s with
  | O, _ => Some s
  | S n', c :: s' => if is_hex c then hex_run n' s' else None
  | S _, [] => None
  end.

Fixpoint hex_groups (sizes : list nat) (s : jsstring) : bool :=
  match sizes with
  | [] => false
  | [n] => match hex_run n s with Some [] => true | _ => false end
  | n :: sizes' =>
      match hex_run n s with
      | Some (c :: s') => (c =? 0x2D)%N && hex_groups sizes' s'
      | _ => false
      end
  end.

Definition zod_uuid (s : jsstring) : bool := hex_groups [8; 4; 4; 4; 12]%nat s.

(** Lower case of a code unit in [A-Z]. *)
Definition to_lower (c : N) : N :=
  if ((0x41 <=? c) && (c <=? 0x5A))%N then (c + 0x20)%N else c.

(** A fragment of the URL parser, enough for the examples: an [https://] or
    [http://] URL whose host is made of lower-case letters and dots and starts
    with a letter, and whose path has only letters, digits, [-], [_] and [/],
    so that the parser has nothing to normalise. *)
Definition is_letter (c : N) : bool :=
  ((0x41 <=? c) && (c <=? 0x5A))%N || ((0x61 <=? c) && (c <=? 0x7A))%N.

Definition is_plain_path_char (c : N) : bool :=
  is_digit c || is_letter c || (c =? 0x2D)%N || (c =? 0x2F)%N || (c =? 0x5F)%N.

Definition is_host_char (c : N) : bool :=
  ((0x61 <=? c) && (c <=? 0x7A))%N || (c =? 0x2E)%N.

Fixpoint split_host (s : jsstring) : jsstring * jsstring :=
  match s with
  | [] => ([], [])
  | c :: s' =>
      if (c =? 0x2F)%N then ([], s)
      else let '(h, p) := split_host s' in (c :: h, p)
  end.

Definition sample_URL_pathname (s : jsstring) : option jsstring :=
  let after_scheme :=
    match strip_prefix (js "https://") s with
    | Some r => Some r
    | None => strip_prefix (js "http://") s
    end in
  match after_scheme with
  | None => None
  | Some r =>
      let '(h, p) := split_host r in
      match h with
      | c :: _ =>
          if ((0x61 <=? c) && (c <=? 0x7A))%N && forallb is_host_char h
             && forallb is_plain_path_char p
          then Some (match p with [] => js "/" | _ => p end)
          else None
      | [] => None
      end
  end.

(** ** The rate limiter (ai-diagnosis and chatbot edge functions) *)

Record limit : Type := { count : Z; resetTime : Z }.

Definition RATE_LIMIT : Z := 10.
Definition RATE_WINDOW_MS : Z := 60000.

(** [checkRateLimit(userId)]: [now] is the value of [Date.now()], the map is
    the module-level [rateLimitMap]; [userLimit.count++] updates the entry the
    map holds. *)
Definition checkRateLimit (now : Z) (userId : jsstring)
    (rateLimitMap : gmap jsstring limit) : bool * gmap jsstring limit :=
  match rateLimitMap !! userId with
  | None =>
      (true, <[userId := {| count := 1; resetTime := now + RATE_WINDOW_MS |}]> rateLimitMap)
  | Some userLimit =>
      if now >? resetTime userLimit then
        (true, <[userId := {| count := 1; resetTime := now + RATE_WINDOW_MS |}]> rateLimitMap)
      else if count userLimit >=? RATE_LIMIT then (false, rateLimitMap)
      else
        (true, <[userId := {| count := count userLimit + 1;
                              resetTime := resetTime userLimit |}]> rateLimitMap)
  end.

(** The limiter in the words of the specification: from the entry of a user
    (if any) at clock reading [now] to the verdict and the entry afterwards. *)
Inductive fixed_window (now : Z) : option limit -> bool -> limit -> Prop :=
  | fw_first :
      fixed_window now None true {| count := 1; resetTime := now + 60 * 1000 |}
  | fw_reset entry :
      resetTime entry < now ->
      fixed_window now (Some entry) true {| count := 1; resetTime := now + 60 * 1000 |}
  | fw_deny entry :
      now <= resetTime entry -> 10 <= count entry ->
      fixed_window now (Some entry) false entry
  | fw_count entry :
      now <= resetTime entry -> count entry < 10 ->
      fixed_window now (Some entry) true
        {| count := count entry + 1; resetTime := resetTime entry |}.

(** Successive calls by any users, each at its clock reading. *)
Fixpoint requests (log : list (Z * jsstring))
    (rateLimitMap : gmap jsstring limit) : list bool * gmap jsstring limit :=
  match log with
  | [] => ([], rateLimitMap)
  | (now, userId) :: log' =>
      let '(ok, m1) := checkRateLimit now userId rateLimitMap in
      let '(oks, m2) := requests log' m1 in
      (ok :: oks, m2)
  end.

(** The verdicts on the calls of one user among those of a log. *)
Fixpoint verdicts_of (userId : jsstring) (log : list (Z * jsstring))
    (oks : list bool) : list bool :=
  match log, oks with
  | (_, u) :: log', ok :: oks' =>
      if jsstring_eqb u userId then ok :: verdicts_of userId log' oks'
      else verdicts_of userId log' oks'
  | _, _ => []
  end.

(** The clock readings of the calls of one user. *)
Fixpoint times_of (userId : jsstring) (log : list (Z * jsstring)) : list Z :=
  match log with
  | [] => []
  | (now, u) :: log' =>
      if jsstring_eqb u userId then now :: times_of userId log'
      else times_of userId log'
  end.

(** Successive calls for one user at the given clock readings. *)
Fixpoint calls (clock : list Z) (userId : jsstring)
    (rateLimitMap : gmap jsstring limit) : list bool * gmap jsstring limit :=
  match clock with
  | [] => ([], rateLimitMap)
  | now :: clock' =>
      let '(ok, m1) := checkRateLimit now userId rateLimitMap in
      let '(oks, m2) := calls clock' userId m1 in
      (ok :: oks, m2)
  end.

(** ** JavaScript values, as JSON carries them *)

(** A JSON number, kept as the decimal its literal denotes:
    [mant * 10 ^ expo]. *)
Record number : Type := { mant : Z; expo : Z }.

#[warnings="-register-all"]
Inductive value : Type :=
  | VUndefined
  | VNull
  | VBool (b : bool)
  | VNum (n : number)
  | VStr (s : jsstring)
  | VArr (items : list value)
  | VObj (props : list (jsstring * value)).

(** The Number value of a decimal is [0] when the decimal is zero or rounds to
    zero, that is when its magnitude is at most [2 ^ -1075], half the least
    positive double. *)
Definition number_is_zero (n : number) : bool :=
  (mant n =? 0)
  || ((expo n <? 0) && (Z.abs (mant n) * 2 ^ 1075 <=? 10 ^ (- expo n))).

(** [ToBoolean]. *)
Definition truthy (v : value) : bool :=
  match v with
  | VUndefined | VNull => false
  | VBool b => b
  | VNum n => negb (number_is_zero n)
  | VStr s => negb (bool_decide (s = []))
  | VArr _ | VObj _ => true
  end.

(** The own property [k] of an object built by [JSON.parse]: a later
    duplicate of a key replaces an earlier one. *)
Fixpoint own_property (k : jsstring) (props : list (jsstring * value)) : value :=
  match props with
  | [] => VUndefined
  | (k', v) :: props' =>
      match own_property k props' with
      | VUndefined => if jsstring_eqb k k' then v else VUndefined
      | found => found
      end
  end.

(** [v.k] for the property names the handler reads ([choices], [message],
    [content], [triageLevel], [patientData], [name], [age], [bloodType],
    [allergies], [medications], [conditions]): none of them is an index,
    [length] or inherited from a prototype, so only objects have them.
    [None] is the [TypeError] of reading a property of [undefined] or
    [null]. *)
Definition get (v : value) (k : jsstring) : option value :=
  match v with
  | VUndefined | VNull => None
  | VObj props => Some (own_property k props)
  | _ => Some VUndefined
  end.

(** [v?.k] *)
Definition get_opt (v : value) (k : jsstring) : value :=
  default VUndefined (get v k).

(** [v?.[0]] *)
Definition get_opt_0 (v : value) : value :=
  match v with
  | VArr items => default VUndefined (head items)
  | VStr (c :: _) => VStr [c]
  | VObj props => own_property (js "0") props
  | _ => VUndefined
  end.

(** ** [JSON.parse] *)

Inductive parsed (A : Type) : Type :=
  | Parsed (a : A) (rest : jsstring)
  | SyntaxError
  | OutOfFuel.
Arguments Parsed {A} a rest.
Arguments SyntaxError {A}.
Arguments OutOfFuel {A}.

Fixpoint skip_ws (s : jsstring) : jsstring :=
  match s with
  | c :: s' =>
      if ((c =? 0x09) || (c =? 0x0A) || (c =? 0x0D) || (c =? 0x20))%N
      then skip_ws s' else s
  | [] => []
  end.

Definition hex_digit_value (c : N) : option N :=
  if is_digit c then Some (c - 0x30)%N
  else if ((0x41 <=? c) && (c <=? 0x46))%N then Some (c - 0x41 + 10)%N
  else if ((0x61 <=? c) && (c <=? 0x66))%N then Some (c - 0x61 + 10)%N
  else None.

Definition hex4 (a b c d : N) : option N :=
  match hex_digit_value a, hex_digit_value b, hex_digit_value c, hex_digit_value d with
  | Some x, Some y, Some z, Some w => Some (((x * 16 + y) * 16 + z) * 16 + w)%N
  | _, _, _, _ => None
  end.

(** The characters of a string literal after its opening quote. *)
Fixpoint parse_string_chars (s : jsstring) : parsed jsstring :=
  match s with
  | [] => SyntaxError
  | c :: s' =>
      if (c =? 0x22)%N then Parsed [] s'
      else if (c =? 0x5C)%N then
        match s' with
        | e :: s'' =>
            let simple (u : N) :=
              match parse_string_chars s'' with
              | Parsed t r => Parsed (u :: t) r
              | other => other
              end in
            if (e =? 0x22)%N then simple 0x22%N
            else if (e =? 0x5C)%N then simple 0x5C%N
            else if (e =? 0x2F)%N then simple 0x2F%N
            else if (e =? 0x62)%N then simple 0x08%N
            else if (e =? 0x66)%N then simple 0x0C%N
            else if (e =? 0x6E)%N then simple 0x0A%N
            else if (e =? 0x72)%N then simple 0x0D%N
            else if (e =? 0x74)%N then simple 0x09%N
            else if (e =? 0x75)%N then
              match s'' with
              | h1 :: h2 :: h3 :: h4 :: s3 =>
                  match hex4 h1 h2 h3 h4 with
                  | Some u =>
                      match parse_string_chars s3 with
                      | Parsed t r => Parsed (u :: t) r
                      | other => other
                      end
                  | None => SyntaxError
                  end
              | _ => SyntaxError
              end
            else SyntaxError
        | [] => SyntaxError
        end
      else if (c <? 0x20)%N then SyntaxError
      else
        match parse_string_chars s' with
        | Parsed t r => Parsed (c :: t) r
        | other => other
        end
  end.

Fixpoint take_digits (s : jsstring) : list N * jsstring :=
  match s with
  | c :: s' =>
      if is_digit c then let '(ds, r) := take_digits s' in (c :: ds, r)
      else ([], s)
  | [] => ([], [])
  end.

Definition digits_value (ds : list N) : Z :=
  fold_left (fun acc c => acc * 10 + Z.of_N (c - 0x30)) ds 0.

(** A number literal: an optional minus sign; then [0], or a non-zero digit
    followed by digits; then optionally a point and one or more digits; then
    optionally [e] or [E], an optional sign and one or more digits. *)
Definition parse_number (s : jsstring) : parsed number :=
  let '(negative, s1) :=
    match s with
    | c :: r => if (c =? 0x2D)%N then (true, r) else (false, s)
    | [] => (false, s)
    end in
  let int_part : option (list N * jsstring) :=
    match s1 with
    | c :: r =>
        if (c =? 0x30)%N then Some ([c], r)
        else if is_digit c then let '(ds, r') := take_digits r in Some (c :: ds, r')
        else None
    | [] => None
    end in
  match int_part with
  | None => SyntaxError
  | Some (int_digits, s2) =>
      let frac_part : option (list N * jsstring) :=
        match s2 with
        | c :: r =>
            if (c =? 0x2E)%N then
              match take_digits r with
              | ([], _) => None
              | (fs, r') => Some (fs, r')
              end
            else Some ([], s2)
        | [] => Some ([], s2)
        end in
      match frac_part with
      | None => SyntaxError
      | Some (frac_digits, s3) =>
          let exp_part : option (Z * jsstring) :=
            match s3 with
            | c :: r =>
                if ((c =? 0x65) || (c =? 0x45))%N then
                  let '(exp_negative, r1) :=
                    match r with
                    | g :: r' =>
                        if (g =? 0x2D)%N then (true, r')
                        else if (g =? 0x2B)%N then (false, r')
                        else (false, r)
                    | [] => (false, r)
                    end in
                  match take_digits r1 with
                  | ([], _) => None
                  | (es, r2) =>
                      Some (if exp_negative then - digits_value es else digits_value es, r2)
                  end
                else Some (0, s3)
            | [] => Some (0, s3)
            end in
          match exp_part with
          | None => SyntaxError
          | Some (e, s4) =>
              let m := digits_value (int_digits ++ frac_digits) in
              Parsed {| mant := if negative then - m else m;
                        expo := e - Z.of_nat (length frac_digits) |} s4
          end
      end
  end.

Definition map_parsed {A B : Type} (f : A -> B) (p : parsed A) : parsed B :=
  match p with
  | Parsed a r => Parsed (f a) r
  | SyntaxError => SyntaxError
  | OutOfFuel => OutOfFuel
  end.

(** Recursive descent over the JSON grammar.  [parse_elements] reads what
    follows [[] or a comma inside an array, [parse_members] what follows [{]
    or a comma inside an object. *)
Fixpoint parse_value (fuel : nat) (s : jsstring) : parsed value :=
  match fuel with
  | O => OutOfFuel
  | S fuel' =>
      match skip_ws s with
      | c :: r =>
          if (c =? 0x5B)%N then
            match skip_ws r with
            | d :: r' =>
                if (d =? 0x5D)%N then Parsed (VArr []) r'
                else map_parsed VArr (parse_elements fuel' r)
            | [] => SyntaxError
            end
          else if (c =? 0x7B)%N then
            match skip_ws r with
            | d :: r' =>
                if (d =? 0x7D)%N then Parsed (VObj []) r'
                else map_parsed VObj (parse_members fuel' r)
            | [] => SyntaxError
            end
          else if (c =? 0x22)%N then map_parsed VStr (parse_string_chars r)
          else
            match strip_prefix (js "null") (c :: r),
                  strip_prefix (js "true") (c :: r),
                  strip_prefix (js "false") (c :: r) with
            | Some r', _, _ => Parsed VNull r'
            | _, Some r', _ => Parsed (VBool true) r'
            | _, _, Some r' => Parsed (VBool false) r'
            | None, None, None => map_parsed VNum (parse_number (c :: r))
            end
      | [] => SyntaxError
      end
  end
with parse_elements (fuel : nat) (s : jsstring) : parsed (list value) :=
  match fuel with
  | O => OutOfFuel
  | S fuel' =>
      match parse_value fuel' s with
      | Parsed v r =>
          match skip_ws r with
          | c :: r' =>
              if (c =? 0x2C)%N then map_parsed (cons v) (parse_elements fuel' r')
              else if (c =? 0x5D)%N then Parsed [v] r'
              else SyntaxError
          | [] => SyntaxError
          end
      | SyntaxError => SyntaxError
      | OutOfFuel => OutOfFuel
      end
  end
with parse_members (fuel : nat) (s : jsstring) : parsed (list (jsstring * value)) :=
  match fuel with
  | O => OutOfFuel
  | S fuel' =>
      match skip_ws s with
      | q :: r0 =>
          if (q =? 0x22)%N then
            match parse_string_chars r0 with
            | Parsed k r1 =>
                match skip_ws r1 with
                | colon :: r2 =>
                    if (colon =? 0x3A)%N then
                      match parse_value fuel' r2 with
                      | Parsed v r3 =>
                          match skip_ws r3 with
                          | c :: r4 =>
                              if (c =? 0x2C)%N
                              then map_parsed (cons (k, v)) (parse_members fuel' r4)
                              else if (c =? 0x7D)%N then Parsed [(k, v)] r4
                              else SyntaxError
                          | [] => SyntaxError
                          end
                      | SyntaxError => SyntaxError
                      | OutOfFuel => OutOfFuel
                      end
                    else SyntaxError
                | [] => SyntaxError
                end
            | SyntaxError => SyntaxError
            | OutOfFuel => OutOfFuel
            end
          else SyntaxError
      | [] => SyntaxError
      end
  end.

(** [JSON.parse(text)]; [None] when it throws a [SyntaxError]. *)
Definition JSON_parse (text : jsstring) : option value :=
  match parse_value (2 * length text + 1) text with
  | Parsed v r => match skip_ws r with [] => Some v | _ => None end
  | _ => None
  end.

(** ** The ai-diagnosis handler *)

Inductive exn : Type :=
  | TypeError                      (* raised by the engine *)
  | Rejection (message : jsstring) (* an awaited promise that rejects *).

Inductive awaited (A : Type) : Type :=
  | Resolves (a : A)
  | Rejects (message : jsstring).
Arguments Resolves {A} a.
Arguments Rejects {A} message.

(** The argument of [JSON.stringify] in each [new Response(...)]. *)
Inductive body_json : Type :=
  | NoBody                          (* new Response(null, ...) *)
  | ErrorBody (error : jsstring)    (* { error: "..." } *)
  | CaughtBody (e : exn)            (* { error: error.message }, catch block *)
  | AnalysisBody (analysis : value) (* { analysis } *).

(** A response; its headers are [corsHeaders] and the content type on every
    path and are left out.  A [Response] built without a status has 200. *)
Record Response : Type := { status : Z; body : body_json }.

Inductive level : Type := error | warn | log.

(** What the handler does to the outside, in order. *)
Inductive event : Type :=
  | console (l : level)
  | auth_getUser (authHeader : jsstring)
  | rateLimitMap_access (userId : jsstring)
  | select_user_roles (userId : jsstring)
  | req_json
  | fetch_ai_gateway (patientData : value)
  | aiResponse_json
  | insert_access_logs (user_id : jsstring) (patient_name triage_level : value).

Record getUser_result : Type :=
  { user : option jsstring (* user.id; None for null *);
    authError : option jsstring }.

Record roles_result : Type :=
  { roles : option (list jsstring) (* the role column of the rows *);
    roleError : option jsstring }.

Record ai_response : Type :=
  { ai_status : Z;
    ai_json : awaited value (* aiResponse.json() *) }.

(** [Response.ok] *)
Definition ok (r : ai_response) : bool :=
  (200 <=? ai_status r) && (ai_status r <=? 299).

(** One request and the outcome of each external call it may await.
    [SUPABASE_URL] and [SUPABASE_ANON_KEY] are set, as the code asserts with
    [!], so that [createClient] returns; the calls of the Supabase client
    resolve to a result with an [error] field and do not reject. *)
Record env : Type :=
  { method : jsstring;
    Authorization : option jsstring;        (* req.headers.get("Authorization") *)
    getUser : getUser_result;               (* supabase.auth.getUser() *)
    Date_now : Z;
    user_roles : roles_result;              (* from("user_roles").select("role").eq(...) *)
    request_json : awaited value;           (* req.json() *)
    LOVABLE_API_KEY : option jsstring;      (* Deno.env.get("LOVABLE_API_KEY") *)
    ai_gateway : awaited ai_response;       (* fetch(".../v1/chat/completions", ...) *)
    access_logs_error : option jsstring     (* error of from("access_logs").insert(...) *) }.

Record state : Type :=
  { rateLimitMap : gmap jsstring limit; trace : list event }.

Inductive outcome (A : Type) : Type :=
  | Value (a : A)
  | Return (r : Response)
  | Throw (e : exn).
Arguments Value {A} a.
Arguments Return {A} r.
Arguments Throw {A} e.

Definition M (A : Type) : Type := state -> outcome A * state.

Definition ret {A : Type} (a : A) : M A := fun s => (Value a, s).

Definition bind {A B : Type} (c : M A) (k : A -> M B) : M B :=
  fun s =>
    match c s with
    | (Value a, s') => k a s'
    | (Return r, s') => (Return r, s')
    | (Throw e, s') => (Throw e, s')
    end.

Notation "x <- c ;; k" := (bind c (fun x => k))
  (at level 100, c at next level, right associativity).
Notation "c ;; k" := (bind c (fun _ => k))
  (at level 100, right associativity).

Definition respond {A : Type} (r : Response) : M A := fun s => (Return r, s).

Definition throw {A : Type} (e : exn) : M A := fun s => (Throw e, s).

Definition emit (ev : event) : M unit :=
  fun s => (Value tt, {| rateLimitMap := rateLimitMap s; trace := trace s ++ [ev] |}).

Definition await {A : Type} (p : awaited A) : M A :=
  match p with
  | Resolves a => ret a
  | Rejects message => throw (Rejection message)
  end.

Definition when (b : bool) (c : M unit) : M unit := if b then c else ret tt.

(** [!s] for a string or [null]. *)
Definition absent (s : option jsstring) : bool :=
  match s with
  | Some (_ :: _) => false
  | _ => true
  end.

(** [v.k], raising the [TypeError] of [get]. *)
Definition prop (v : value) (k : jsstring) : M value :=
  match get v k with
  | Some x => ret x
  | None => throw TypeError
  end.

(** [v?.join(", ")], for its effect only: the call is skipped for a nullish
    [v], made for an array, and a [TypeError] for any other value, which has
    no callable [join]. *)
Definition joinable (v : value) : bool :=
  match v with
  | VUndefined | VNull | VArr _ => true
  | _ => false
  end.

Definition optional_join (v : value) : M unit :=
  if joinable v then ret tt else throw TypeError.

Definition checkRateLimitM (now : Z) (userId : jsstring) : M bool :=
  emit (rateLimitMap_access userId) ;;
  fun s =>
    let '(allowed, m) := checkRateLimit now userId (rateLimitMap s) in
    (Value allowed, {| rateLimitMap := m; trace := trace s |}).

Definition privileged (role : jsstring) : bool :=
  jsstring_eqb role (js "medical_responder") || jsstring_eqb role (js "hospital_admin").

Section Handler.

(** [Number::toString], the shortest decimal that reads back as the same
    double. *)
Variable Number_toString : number -> jsstring.

(** [ToString], applied by [JSON.parse] to its argument. *)
Fixpoint ToString (v : value) : jsstring :=
  match v with
  | VUndefined => js "undefined"
  | VNull => js "null"
  | VBool true => js "true"
  | VBool false => js "false"
  | VNum n => Number_toString n
  | VStr s => s
  | VArr items =>
      (fix join (l : list value) : jsstring :=
         let element (x : value) :=
           match x with
           | VUndefined | VNull => []
           | _ => ToString x
           end in
         match l with
         | [] => []
         | [x] => element x
         | x :: l' => element x ++ js "," ++ join l'
         end) items
  | VObj _ => js "[object Object]"
  end.

(** The [try] block of the handler. *)
Definition try_block (e : env) : M Response :=
  (* Get authorization header *)
  when (absent (Authorization e))
    (emit (console error) ;;
     respond {| status := 401; body := ErrorBody (js "Authorization required") |}) ;;
  let authHeader := default [] (Authorization e) in
  (* Verify authenticated user *)
  emit (auth_getUser authHeader) ;;
  user_id <-
    match authError (getUser e), user (getUser e) with
    | None, Some id => ret id
    | _, _ =>
        emit (console error) ;;
        respond {| status := 401; body := ErrorBody (js "Invalid authentication") |}
    end ;;
  emit (console log) ;;
  (* Check rate limit *)
  allowed <- checkRateLimitM (Date_now e) user_id ;;
  when (negb allowed)
    (emit (console warn) ;;
     respond {| status := 429;
                body := ErrorBody
                  (js "Rate limit exceeded. Please wait before making another request.") |}) ;;
  (* Verify user has medical_responder or hospital_admin role *)
  emit (select_user_roles user_id) ;;
  when (bool_decide (roleError (user_roles e) <> None))
    (emit (console error) ;;
     respond {| status := 500; body := ErrorBody (js "Failed to verify user role") |}) ;;
  let hasPermission :=
    match roles (user_roles e) with
    | Some rows => existsb privileged rows
    | None => false
    end in
  when (negb hasPermission)
    (emit (console warn) ;;
     respond {| status := 403;
                body := ErrorBody
                  (js "Insufficient permissions. Medical responder or admin role required.") |}) ;;
  (* Parse request body *)
  emit req_json ;;
  request <- await (request_json e) ;;
  patientData <- prop request (js "patientData") ;;
  when (negb (truthy patientData))
    (respond {| status := 400; body := ErrorBody (js "Patient data required") |}) ;;
  (* Validate patient data structure *)
  name <- prop patientData (js "name") ;;
  age <- prop patientData (js "age") ;;
  bloodType <- prop patientData (js "bloodType") ;;
  when (negb (truthy name) || negb (truthy age) || negb (truthy bloodType))
    (respond {| status := 400; body := ErrorBody (js "Invalid patient data structure") |}) ;;
  emit (console log) ;;
  (* Call Lovable AI Gateway *)
  when (absent (LOVABLE_API_KEY e))
    (emit (console error) ;;
     respond {| status := 500; body := ErrorBody (js "AI service not configured") |}) ;;
  (* userPrompt *)
  allergies <- prop patientData (js "allergies") ;;
  optional_join allergies ;;
  medications <- prop patientData (js "medications") ;;
  optional_join medications ;;
  conditions <- prop patientData (js "conditions") ;;
  optional_join conditions ;;
  emit (fetch_ai_gateway patientData) ;;
  aiResponse <- await (ai_gateway e) ;;
  when (negb (ok aiResponse))
    (emit (console error) ;;
     when (ai_status aiResponse =? 429)
       (respond {| status := 429;
                   body := ErrorBody
                     (js "AI service rate limit exceeded. Please try again later.") |}) ;;
     when (ai_status aiResponse =? 402)
       (respond {| status := 402;
                   body := ErrorBody
                     (js "AI service payment required. Please contact administrator.") |}) ;;
     respond {| status := 500; body := ErrorBody (js "AI analysis failed") |}) ;;
  emit aiResponse_json ;;
  aiData <- await (ai_json aiResponse) ;;
  choices <- prop aiData (js "choices") ;;
  let analysisContent := get_opt (get_opt (get_opt_0 choices) (js "message")) (js "content") in
  when (negb (truthy analysisContent))
    (emit (console error) ;;
     respond {| status := 500; body := ErrorBody (js "Invalid AI response") |}) ;;
  analysis <-
    match JSON_parse (ToString analysisContent) with
    | Some parsed_value => ret parsed_value
    | None =>
        emit (console error) ;;
        respond {| status := 500; body := ErrorBody (js "Failed to parse AI analysis") |}
    end ;;
  (* Log the request to access_logs *)
  triage_level <- prop analysis (js "triageLevel") ;;
  emit (insert_access_logs user_id name triage_level) ;;
  when (bool_decide (access_logs_error e <> None))
    (emit (console warn)) ;;
  emit (console log) ;;
  ret {| status := 200; body := AnalysisBody analysis |}.

(** The function given to [serve]: the preflight answer, then the [try]
    block with its [catch]. *)
Definition handler (e : env) (s : state) : Response * state :=
  if jsstring_eqb (method e) (js "OPTIONS") then
    ({| status := 200; body := NoBody |}, s)
  else
    match try_block e s with
    | (Value r, s') => (r, s')
    | (Return r, s') => (r, s')
    | (Throw x, s') =>
        ({| status := 500; body := CaughtBody x |},
         {| rateLimitMap := rateLimitMap s'; trace := trace s' ++ [console error] |})
    end.

(** One request against the current rate-limit map. *)
Definition serve (e : env) (m : gmap jsstring limit) : Response * state :=
  handler e {| rateLimitMap := m; trace := [] |}.

End Handler.

(** [e] with another outcome of the [access_logs] insert. *)
Definition with_access_logs_error (e : env) (err : option jsstring) : env :=
  {| method := method e;
     Authorization := Authorization e;
     getUser := getUser e;
     Date_now := Date_now e;
     user_roles := user_roles e;
     request_json := request_json e;
     LOVABLE_API_KEY := LOVABLE_API_KEY e;
     ai_gateway := ai_gateway e;
     access_logs_error := err |}.

(** ** The response validator of the specification *)





(** ** Sample requests *)

(** Stands for [Number::toString] in the examples, none of which converts a
    number: the digits of an integer, nothing for other numbers. *)
Definition sample_Number_toString (n : number) : jsstring :=
  if (expo n =? 0) && (0 <=? mant n)
  then js (DecimalString.NilZero.string_of_uint (N.to_uint (Z.to_N (mant n))))
  else [].

Definition patient (name : string) (age : Z) (bloodType : string) : value :=
  VObj [ (js "name", VStr (js name));
         (js "age", VNum {| mant := age; expo := 0 |});
         (js "bloodType", VStr (js bloodType));
         (js "allergies", VArr [VStr (js "Penicillin")]);
         (js "medications", VArr []);
         (js "conditions", VArr [VStr (js "Hypertension (active)")]) ].
Arguments patient name%_string age%_Z bloodType%_string.

(** A chat completion whose first choice has the given message content. *)
Definition completion (content : value) : value :=
  VObj [ (js "choices",
          VArr [ VObj [ (js "message",
                         VObj [ (js "role", VStr (js "assistant"));
                                (js "content", content) ]) ] ]) ].

(** A request by an authenticated medical responder for which every
    external call succeeds. *)
Definition sample_env (patientData : value) (status : Z) (content : value) : env :=
  {| method := js "POST";
     Authorization := Some (js "Bearer token");
     getUser := {| user := Some (js "responder-1"); authError := None |};
     Date_now := 1700000000000;
     user_roles := {| roles := Some [js "medical_responder"]; roleError := None |};
     request_json := Resolves (VObj [(js "patientData", patientData)]);
     LOVABLE_API_KEY := Some (js "key");
     ai_gateway := Resolves {| ai_status := status;
                               ai_json := Resolves (completion content) |};
     access_logs_error := None |}.

Definition with_roles (e : env) (r : roles_result) : env :=
  {| method := method e;
     Authorization := Authorization e;
     getUser := getUser e;
     Date_now := Date_now e;
     user_roles := r;
     request_json := request_json e;
     LOVABLE_API_KEY := LOVABLE_API_KEY e;
     ai_gateway := ai_gateway e;
     access_logs_error := access_logs_error e |}.

Definition without_Authorization (e : env) : env :=
  {| method := method e;
     Authorization := None;
     getUser := getUser e;
     Date_now := Date_now e;
     user_roles := user_roles e;
     request_json := request_json e;
     LOVABLE_API_KEY := LOVABLE_API_KEY e;
     ai_gateway := ai_gateway e;
     access_logs_error := access_logs_error e |}.

Definition urgent_content : jsstring :=
  jsq "{'triageLevel':'urgent','probableConditions':[],'immediateActions':[]}".

Definition urgent_analysis : value :=
  VObj [ (js "triageLevel", VStr (js "urgent"));
         (js "probableConditions", VArr []);
         (js "immediateActions", VArr []) ].



Definition ann : value := patient "Ann Lee" 45 "O+".

Definition urgent_env : env := sample_env ann 200 (VStr urgent_content).




Definition no_token_env : env := without_Authorization urgent_env.

Definition patient_role_env : env :=
  with_roles urgent_env {| roles := Some [js "patient"]; roleError := None |}.

Definition newborn_env : env :=
  sample_env (patient "Baby Doe" 0 "O+") 200 (VStr urgent_content).

Definition infant_env : env :=
  sample_env (patient "Baby Doe" 1 "O+") 200 (VStr urgent_content).

(** ** Bounds of the rate limiter *)

Definition count_in_bounds (_ : jsstring) (entry : limit) : Prop :=
  1 <= count entry <= RATE_LIMIT.

(** ** Calls allowed within a span of time *)

(** The number of allowed calls among those made at a clock reading between
    [from] and [from + RATE_WINDOW_MS]. *)
Fixpoint allowed_within (from : Z) (clock : list Z) (oks : list bool) : nat :=
  match clock, oks with
  | now :: clock', ok :: oks' =>
      if ok && (from <=? now) && (now <=? from + RATE_WINDOW_MS)
      then S (allowed_within from clock' oks')
      else allowed_within from clock' oks'
  | _, _ => O
  end.

(** ** Successive requests to the ai-diagnosis function *)

(** The requests are served one after the other by one instance, which
    keeps its [rateLimitMap] between them. *)
Fixpoint serve_all (Number_toString : number -> jsstring) (requests : list env)
    (m : gmap jsstring limit) : list Response * gmap jsstring limit :=
  match requests with
  | [] => ([], m)
  | e :: requests' =>
      let '(r, s) := serve Number_toString e m in
      let '(rs, m') := serve_all Number_toString requests' (rateLimitMap s) in
      (r :: rs, m')
  end.

(** The user for whom the handler calls [checkRateLimit]: the request is no
    preflight, carries an [Authorization] header, and [getUser] gives a user
    and no error. *)
Definition authenticated (e : env) : option jsstring :=
  if jsstring_eqb (method e) (js "OPTIONS") then None
  else if absent (Authorization e) then None
  else match authError (getUser e), user (getUser e) with
       | None, Some id => Some id
       | _, _ => None
       end.

(** The calls of [checkRateLimit] that a list of requests gives rise to. *)
Fixpoint limiter_log (requests : list env) : list (Z * jsstring) :=
  match requests with
  | [] => []
  | e :: requests' =>
      match authenticated e with
      | Some id => (Date_now e, id) :: limiter_log requests'
      | None => limiter_log requests'
      end
  end.

(** The answer of the rate-limit guard. *)
Definition rate_limited : Response :=
  {| status := 429;
     body := ErrorBody
       (js "Rate limit exceeded. Please wait before making another request.") |}.

(** The place of an external call in the handler; [console] calls have
    none. *)
Definition stage (ev : event) : option nat :=
  match ev with
  | console _ => None
  | auth_getUser _ => Some 1%nat
  | rateLimitMap_access _ => Some 2%nat
  | select_user_roles _ => Some 3%nat
  | req_json => Some 4%nat
  | fetch_ai_gateway _ => Some 5%nat
  | aiResponse_json => Some 6%nat
  | insert_access_logs _ _ _ => Some 7%nat
  end.

Fixpoint stages (tr : list event) : list nat :=
  match tr with
  | [] => []
  | ev :: tr' =>
      match stage ev with
      | Some n => n :: stages tr'
      | None => stages tr'
      end
  end.

(** ** The chatbot edge function *)

(** The same monad as for the ai-diagnosis handler, over the events, the
    responses and the exceptions of this function. *)
Inductive chat_event : Type :=
  | chat_console (l : level)
  | chat_auth_getUser (authHeader : jsstring)
  | chat_rateLimitMap_access (userId : jsstring)
  | chat_req_json
  | fetch_openai (messages : list value)
  | chat_response_json.

Inductive chat_exn : Type :=
  | ChatTypeError                      (* raised by the engine *)
  | ChatRejection (message : jsstring) (* an awaited promise that rejects *)
  | ChatError                          (* throw new Error(...) *).

Inductive chat_body : Type :=
  | ChatNoBody                         (* new Response(null, ...) *)
  | ChatErrorBody (error : jsstring)   (* { error: "..." } *)
  | ChatMessageBody (message : value)  (* { message: assistantMessage } *).

Record chat_Response : Type := { chat_status : Z; chat_body_of : chat_body }.

Record chat_env : Type :=
  { chat_method : jsstring;
    chat_Authorization : option jsstring;   (* req.headers.get('Authorization') *)
    chat_getUser : getUser_result;          (* supabase.auth.getUser() *)
    chat_Date_now : Z;
    openAIApiKey : option jsstring;         (* Deno.env.get('OPENAI_API_KEY') *)
    chat_request_json : awaited value;      (* req.json() *)
    openai : awaited ai_response            (* fetch('.../v1/chat/completions', ...) *) }.

Record chat_state : Type :=
  { chat_rateLimitMap : gmap jsstring limit; chat_trace : list chat_event }.

Inductive chat_outcome (A : Type) : Type :=
  | ChatValue (a : A)
  | ChatReturn (r : chat_Response)
  | ChatThrow (x : chat_exn).
Arguments ChatValue {A} a.
Arguments ChatReturn {A} r.
Arguments ChatThrow {A} x.

Definition CM (A : Type) : Type := chat_state -> chat_outcome A * chat_state.

Definition chat_ret {A : Type} (a : A) : CM A := fun s => (ChatValue a, s).

Definition chat_bind {A B : Type} (c : CM A) (k : A -> CM B) : CM B :=
  fun s =>
    match c s with
    | (ChatValue a, s') => k a s'
    | (ChatReturn r, s') => (ChatReturn r, s')
    | (ChatThrow x, s') => (ChatThrow x, s')
    end.

Declare Scope chat_scope.
Delimit Scope chat_scope with chat.
Notation "x <- c ;; k" := (chat_bind c (fun x => k))
  (at level 100, c at next level, right associativity) : chat_scope.
Notation "c ;; k" := (chat_bind c (fun _ => k))
  (at level 100, right associativity) : chat_scope.

Definition chat_respond {A : Type} (r : chat_Response) : CM A :=
  fun s => (ChatReturn r, s).

Definition chat_throw {A : Type} (x : chat_exn) : CM A := fun s => (ChatThrow x, s).

Definition chat_emit (ev : chat_event) : CM unit :=
  fun s => (ChatValue tt,
            {| chat_rateLimitMap := chat_rateLimitMap s;
               chat_trace := chat_trace s ++ [ev] |}).

Definition chat_await {A : Type} (p : awaited A) : CM A :=
  match p with
  | Resolves a => chat_ret a
  | Rejects message => chat_throw (ChatRejection message)
  end.

Definition chat_when (b : bool) (c : CM unit) : CM unit :=
  if b then c else chat_ret tt.

(** [v.k], raising the [TypeError] of [get]. *)
Definition chat_prop (v : value) (k : jsstring) : CM value :=
  match get v k with
  | Some x => chat_ret x
  | None => chat_throw ChatTypeError
  end.

(** [v[0]]; [None] is the [TypeError] of indexing [undefined] or [null]. *)
Definition get_0 (v : value) : option value :=
  match v with
  | VUndefined | VNull => None
  | _ => Some (get_opt_0 v)
  end.

Definition chat_checkRateLimit (now : Z) (userId : jsstring) : CM bool :=
  (chat_emit (chat_rateLimitMap_access userId) ;;
   fun s =>
     let '(allowed, m) := checkRateLimit now userId (chat_rateLimitMap s) in
     (ChatValue allowed, {| chat_rateLimitMap := m; chat_trace := chat_trace s |}))%chat.

Definition MAX_MESSAGES : Z := 20.
Definition MAX_MESSAGE_LENGTH : Z := 2000.

(** [validRoles.includes(role)] for [validRoles = ['user', 'assistant']]. *)
Definition validRoles_includes (role : value) : bool :=
  match role with
  | VStr s => jsstring_eqb s (js "user") || jsstring_eqb s (js "assistant")
  | _ => false
  end.

(** [typeof content !== 'string' || content.length > MAX_MESSAGE_LENGTH] *)
Definition content_refused (content : value) : bool :=
  match content with
  | VStr s => Z.of_nat (length s) >? MAX_MESSAGE_LENGTH
  | _ => true
  end.

(** The loop [for (const msg of messages)]. *)
Fixpoint validate_messages (messages : list value) : CM unit :=
  match messages with
  | [] => chat_ret tt
  | msg :: messages' =>
      (role <- chat_prop msg (js "role") ;;
       chat_when (negb (truthy role) || negb (validRoles_includes role))
         (chat_respond {| chat_status := 400;
                          chat_body_of := ChatErrorBody (js "Invalid message role") |}) ;;
       content <- chat_prop msg (js "content") ;;
       chat_when (content_refused content)
         (chat_respond
            {| chat_status := 400;
               chat_body_of := ChatErrorBody
                 (js "Message content must be a string under 2000 characters") |}) ;;
       validate_messages messages')%chat
  end.

(** The [try] block of the chatbot handler. *)
Definition chat_try_block (e : chat_env) : CM chat_Response :=
  ((* Authenticate user *)
   chat_when (absent (chat_Authorization e))
     (chat_respond {| chat_status := 401;
                      chat_body_of := ChatErrorBody (js "Authorization required") |}) ;;
   let authHeader := default [] (chat_Authorization e) in
   chat_emit (chat_auth_getUser authHeader) ;;
   user_id <-
     match authError (chat_getUser e), user (chat_getUser e) with
     | None, Some id => chat_ret id
     | _, _ =>
         chat_respond {| chat_status := 401;
                         chat_body_of := ChatErrorBody (js "Invalid authentication") |}
     end ;;
   (* Rate limit *)
   allowed <- chat_checkRateLimit (chat_Date_now e) user_id ;;
   chat_when (negb allowed)
     (chat_respond {| chat_status := 429;
                      chat_body_of := ChatErrorBody (js "Rate limit exceeded. Please wait.") |}) ;;
   chat_when (absent (openAIApiKey e))
     (chat_throw ChatError) ;;
   chat_emit chat_req_json ;;
   request <- chat_await (chat_request_json e) ;;
   messages <- chat_prop request (js "messages") ;;
   items <-
     match messages with
     | VArr items => chat_ret items
     | _ =>
         chat_respond {| chat_status := 400;
                         chat_body_of := ChatErrorBody (js "Messages array is required") |}
     end ;;
   (* Validate messages *)
   chat_when (Z.of_nat (length items) >? MAX_MESSAGES)
     (chat_respond {| chat_status := 400;
                      chat_body_of := ChatErrorBody (js "Maximum 20 messages allowed") |}) ;;
   validate_messages items ;;
   chat_emit (fetch_openai items) ;;
   response <- chat_await (openai e) ;;
   chat_when (negb (ok response))
     (chat_emit (chat_console error) ;;
      chat_throw ChatError) ;;
   chat_emit chat_response_json ;;
   data <- chat_await (ai_json response) ;;
   choices <- chat_prop data (js "choices") ;;
   choice <- match get_0 choices with
             | Some x => chat_ret x
             | None => chat_throw ChatTypeError
             end ;;
   message <- chat_prop choice (js "message") ;;
   assistantMessage <- chat_prop message (js "content") ;;
   chat_ret {| chat_status := 200; chat_body_of := ChatMessageBody assistantMessage |})%chat.

(** The function given to [serve] in the chatbot: the preflight answer, then
    the [try] block with its [catch], which answers every exception alike. *)
Definition chat_handler (e : chat_env) (s : chat_state) : chat_Response * chat_state :=
  if jsstring_eqb (chat_method e) (js "OPTIONS") then
    ({| chat_status := 200; chat_body_of := ChatNoBody |}, s)
  else
    match chat_try_block e s with
    | (ChatValue r, s') => (r, s')
    | (ChatReturn r, s') => (r, s')
    | (ChatThrow x, s') =>
        ({| chat_status := 500;
            chat_body_of := ChatErrorBody (js "An error occurred processing your request") |},
         {| chat_rateLimitMap := chat_rateLimitMap s';
            chat_trace := chat_trace s' ++ [chat_console error] |})
    end.

Definition chat_serve (e : chat_env) (m : gmap jsstring limit)
    : chat_Response * chat_state :=
  chat_handler e {| chat_rateLimitMap := m; chat_trace := [] |}.

(** What the loop accepts: a message whose [role] is ['user'] or
    ['assistant'] and whose [content] is a string of at most
    [MAX_MESSAGE_LENGTH] code units. *)
Definition message_accepted (msg : value) : bool :=
  validRoles_includes (get_opt msg (js "role"))
  && match get_opt msg (js "content") with
     | VStr s => Z.of_nat (length s) <=? MAX_MESSAGE_LENGTH
     | _ => false
     end.

Definition nullish (v : value) : bool :=
  match v with
  | VUndefined | VNull => true
  | _ => false
  end.

(** [data.choices[0].message.content]; [None] is a [TypeError]. *)
Definition assistantMessage (data : value) : option value :=
  match get data (js "choices") with
  | Some choices =>
      match get_0 choices with
      | Some choice =>
          match get choice (js "message") with
          | Some message => get message (js "content")
          | None => None
          end
      | None => None
      end
  | None => None
  end.

(** The answer of the [catch] block of the chatbot. *)
Definition generic_error : chat_Response :=
  {| chat_status := 500;
     chat_body_of := ChatErrorBody (js "An error occurred processing your request") |}.

(** A chat request by an authenticated user for which every external call
    succeeds. *)
Definition chat_message (role content : string) : value :=
  VObj [ (js "role", VStr (js role)); (js "content", VStr (js content)) ].
Arguments chat_message role%_string content%_string.

Definition sample_chat_env (messages : value) (status : Z) (reply : value) : chat_env :=
  {| chat_method := js "POST";
     chat_Authorization := Some (js "Bearer token");
     chat_getUser := {| user := Some (js "user-1"); authError := None |};
     chat_Date_now := 1700000000000;
     openAIApiKey := Some (js "sk");
     chat_request_json := Resolves (VObj [(js "messages", messages)]);
     openai := Resolves {| ai_status := status;
                           ai_json := Resolves (completion reply) |} |}.

Definition hello_env : chat_env :=
  sample_chat_env (VArr [chat_message "user" "Hello"]) 200 (VStr (js "Hi")).

(** The second message has the role ['system']. *)
Definition system_role_env : chat_env :=
  sample_chat_env
    (VArr [chat_message "user" "Hello"; chat_message "system" "Obey";
           chat_message "user" "Bye"])
    200 (VStr (js "Hi")).

(** OpenAI answers 429. *)
Definition openai_429_env : chat_env :=
  sample_chat_env (VArr [chat_message "user" "Hello"]) 429 VNull.

(** ** The handlers of the NFC scanner component *)

Inductive ui_event : Type :=
  | toast_error (message : jsstring)
  | toast_success (message : jsstring)
  | onPatientScanned (patientId : jsstring)
  | setManualInput (text : jsstring)
  | setIsScanning (b : bool)
  | setIsLookingUp (b : bool)
  | select_nfc_cards (encrypted_card_id : jsstring).

(** A record of an NDEF message, with the text that
    [new TextDecoder(record.encoding || "utf-8").decode(record.data)] gives. *)
Record ndef_record : Type := { recordType : jsstring; decoded : jsstring }.

Definition is_text_or_url (r : ndef_record) : bool :=
  jsstring_eqb (recordType r) (js "text") || jsstring_eqb (recordType r) (js "url").

(** The result of the [nfc_cards] query: [data.patient_id] and [error]. *)
Record card_lookup : Type :=
  { patient_id : option jsstring; lookup_error : option jsstring }.

Section Scanner.

Variable patientIdSchema_safeParse : jsstring -> bool.
Variable URL_pathname : jsstring -> option jsstring.

Local Abbreviation extract :=
  (extractPatientId patientIdSchema_safeParse URL_pathname).

(** The listener of the ["reading"] event. *)
Fixpoint on_reading (records : list ndef_record) : list ui_event :=
  match records with
  | [] =>
      [setIsScanning false;
       toast_error (js "No valid patient data found on NFC tag")]
  | record :: records' =>
      if is_text_or_url record then
        match extract (decoded record) with
        | Some (c :: id) =>
            [setIsScanning false; onPatientScanned (c :: id);
             toast_success (js "Patient card scanned successfully")]
        | _ => [setIsScanning false; toast_error (js "Invalid NFC tag data")]
        end
      else on_reading records'
  end.

Definition handleManualSubmit (manualInput : jsstring) : list ui_event :=
  match extract manualInput with
  | Some (c :: id) =>
      [onPatientScanned (c :: id); toast_success (js "Patient loaded successfully")]
  | _ => [toast_error (js "Invalid input")]
  end.

(** [clipboard] is the outcome of [navigator.clipboard.readText()]. *)
Definition handlePasteFromClipboard (clipboard : awaited jsstring) : list ui_event :=
  match clipboard with
  | Rejects _ => [toast_error (js "Could not read clipboard")]
  | Resolves [] => [toast_error (js "Clipboard is empty")]
  | Resolves text =>
      setManualInput text ::
      match extract text with
      | Some (c :: id) =>
          [onPatientScanned (c :: id); toast_success (js "Patient loaded from clipboard")]
      | _ => [toast_error (js "Clipboard data is not a valid patient ID or URL")]
      end
  end.

End Scanner.

(** [query] is the outcome of the [nfc_cards] query for the card number. *)
Definition handleUuidCardLookup (uuidCardInput : jsstring)
    (query : jsstring -> awaited card_lookup) : list ui_event :=
  let cardNumber := trim uuidCardInput in
  match cardNumber with
  | [] => [toast_error (js "Enter a UUID card number")]
  | _ =>
      [setIsLookingUp true; select_nfc_cards cardNumber]
      ++ match query cardNumber with
         | Resolves {| patient_id := Some id; lookup_error := None |} =>
             [onPatientScanned id; toast_success (js "Patient found via UUID card")]
         | Resolves _ => [toast_error (js "Card not found")]
         | Rejects _ => [toast_error (js "Lookup failed")]
         end
      ++ [setIsLookingUp false]
  end.

(** The calls of [onPatientScanned] among the events of a handler. *)
Fixpoint scanned (events : list ui_event) : list jsstring :=
  match events with
  | [] => []
  | onPatientScanned id :: events' => id :: scanned events'
  | _ :: events' => scanned events'
  end.

(** At most one call of [onPatientScanned], with an identifier that is not
    empty and that [check] accepts. *)
Definition checked_once (check : jsstring -> bool) (events : list ui_event) : Prop :=
  Forall (fun id => check id = true /\ id <> []) (scanned events) /\
  (length (scanned events) <= 1)%nat.

(** ** Writing a card (WriteNFC page) *)

(** [patientUrl], for [origin = window.location.origin]. *)
Definition patientUrl (origin selectedPatientId : jsstring) : jsstring :=
  match selectedPatientId with
  | [] => []
  | _ => origin ++ js "/patient/" ++ selectedPatientId
  end.

(** The records [handleWriteNFC] gives to [ndef.write], as a scan of the
    card gives them back: the decoded text of a record is the data
    written. *)
Definition written_records (origin selectedPatientId : jsstring) : list ndef_record :=
  [ {| recordType := js "url"; decoded := patientUrl origin selectedPatientId |};
    {| recordType := js "text"; decoded := selectedPatientId |} ].

(** ** A bound for the calls allowed within a span of time *)

(** For a user whose entry has count [c] and window end [R], and whose next
    calls come at the readings [clock], in that order: how many of these
    calls at a reading between [from] and [from + RATE_WINDOW_MS] can be
    allowed. *)
Definition span_bound (from c R : Z) (clock : list Z) : Z :=
  match clock with
  | [] => 0
  | now :: _ =>
      if from + RATE_WINDOW_MS <? now then 0
      else if from + RATE_WINDOW_MS <=? R then RATE_LIMIT - c
      else if from <=? R then 2 * RATE_LIMIT - c
      else 2 * RATE_LIMIT - 1
  end.

(** ** Further sample requests *)

Definition with_ai_gateway (e : env) (gw : awaited ai_response) : env :=
  {| method := method e;
     Authorization := Authorization e;
     getUser := getUser e;
     Date_now := Date_now e;
     user_roles := user_roles e;
     request_json := request_json e;
     LOVABLE_API_KEY := LOVABLE_API_KEY e;
     ai_gateway := gw;
     access_logs_error := access_logs_error e |}.

(** The model endpoint cannot be reached. *)
Definition gateway_down_env : env :=
  with_ai_gateway urgent_env (Rejects (js "error sending request")).



(* ================================================================== *)
(** * Part II. Properties *)
(* ================================================================== *)

(** ** Strings *)

Lemma hex_or_dash_not_whitespace (c : N) :
  is_hex_or_dash c = true -> is_js_whitespace c = false.
Proof.
  unfold is_hex_or_dash, is_hex, is_digit, is_js_whitespace; cbn [existsb].
  intros H.
  repeat match goal with
         | |- context [N.eqb c ?k] =>
             destruct (N.eqb_spec c k) as [-> | _]; [now vm_compute in H |]
         end.
  reflexivity.
Qed.

Lemma hex_or_dash_not_colon (c : N) : is_hex_or_dash c = true -> c <> 0x3A%N.
Proof. intros H ->. now vm_compute in H. Qed.

Lemma trimStart_hex_or_dash (s : jsstring) :
  forallb is_hex_or_dash s = true -> trimStart s = s.
Proof.
  destruct s as [| c s]; [reflexivity |].
  cbn [trimStart forallb]. intros [Hc _]%andb_true_iff.
  now rewrite (hex_or_dash_not_whitespace c Hc).
Qed.

Lemma trim_hex_or_dash (s : jsstring) :
  forallb is_hex_or_dash s = true -> trim s = s.
Proof.
  intros H. unfold trim, trimEnd.
  rewrite (trimStart_hex_or_dash s H).
  rewrite trimStart_hex_or_dash; [apply rev_involutive |].
  apply forallb_forall. intros c Hc%in_rev.
  now apply (proj1 (forallb_forall _ _) H).
Qed.

Lemma strip_prefix_app (p s : jsstring) : strip_prefix p (p ++ s) = Some s.
Proof.
  induction p as [| a p IH]; [reflexivity |].
  cbn. now rewrite N.eqb_refl.
Qed.

Lemma strip_prefix_Some (p s r : jsstring) :
  strip_prefix p s = Some r -> s = p ++ r.
Proof.
  revert s. induction p as [| a p IH]; intros s H.
  - cbn in H. now injection H as ->.
  - destruct s as [| b s]; [discriminate |]. cbn in H.
    destruct (N.eqb_spec a b) as [-> | _]; [| discriminate].
    cbn. f_equal. now apply IH.
Qed.

Lemma match_patient_path_Some (pathname g : jsstring) :
  match_patient_path pathname = Some g <->
  pathname = js "/patient/" ++ g /\ length g = 36%nat /\
  forallb is_hex_or_dash g = true.
Proof.
  unfold match_patient_path. split.
  - destruct (strip_prefix _ pathname) as [r |] eqn:Hp; [| discriminate].
    destruct (Nat.eqb_spec (length r) 36) as [Hlen |]; [| discriminate].
    cbn [andb]. destruct (forallb is_hex_or_dash r) eqn:Hr; [| discriminate].
    intros [= <-]. auto using strip_prefix_Some.
  - intros (-> & Hlen & Hr).
    rewrite strip_prefix_app, Hlen, Hr. reflexivity.
Qed.

(** ** The pattern of zod's [uuid()] *)

Lemma hex_run_shape (n : nat) (s r : jsstring) :
  hex_run n s = Some r ->
  exists h, s = h ++ r /\ length h = n /\ forallb is_hex_or_dash h = true.
Proof.
  revert s. induction n as [| n IH]; intros s H.
  - cbn in H. injection H as ->. now exists [].
  - destruct s as [| c s]; [discriminate |]. cbn in H.
    destruct (is_hex c) eqn:Hc; [| discriminate].
    destruct (IH s H) as (h & -> & Hlen & Hh).
    exists (c :: h). cbn. unfold is_hex_or_dash at 1.
    now rewrite Hc, Hh, Hlen.
Qed.

Lemma hex_groups_shape (sizes : list nat) (s : jsstring) :
  hex_groups sizes s = true ->
  S (length s) = (list_sum sizes + length sizes)%nat /\
  forallb is_hex_or_dash s = true.
Proof.
  revert s. induction sizes as [| n sizes IH]; intros s H; [discriminate |].
  cbn [hex_groups] in H.
  destruct (hex_run n s) as [r |] eqn:Hrun;
    [| now destruct sizes].
  destruct (hex_run_shape n s r Hrun) as (h & -> & Hlen & Hh).
  rewrite length_app, forallb_app, Hh, Hlen. cbn [andb list_sum length].
  destruct sizes as [| n' sizes].
  - destruct r; [| discriminate]. cbn. split; [lia | reflexivity].
  - destruct r as [| c r]; [discriminate |].
    apply andb_true_iff in H as [Hc Hrest].
    destruct (IH r Hrest) as [Hl Hr].
    cbn [length forallb]. unfold is_hex_or_dash at 1.
    rewrite Hc, orb_true_r, Hr.
    unfold list_sum in *. cbn [fold_right length] in *. split; [lia | reflexivity].
Qed.

Lemma zod_uuid_shape (s : jsstring) :
  zod_uuid s = true -> length s = 36%nat /\ forallb is_hex_or_dash s = true.
Proof.
  intros H. apply hex_groups_shape in H as [Hl Hs].
  cbn in Hl. split; [lia | exact Hs].
Qed.

Lemma is_hex_to_lower (c : N) : is_hex (to_lower c) = is_hex c.
Proof.
  unfold to_lower.
  destruct (N.leb_spec 0x41 c), (N.leb_spec c 0x5A); cbn [andb]; try reflexivity.
  unfold is_hex, is_digit.
  repeat match goal with
         | |- context [N.leb ?a ?b] => destruct (N.leb_spec a b)
         end; cbn; try reflexivity; lia.
Qed.

Lemma dash_to_lower (c : N) : (to_lower c =? 0x2D)%N = (c =? 0x2D)%N.
Proof.
  unfold to_lower.
  destruct (N.leb_spec 0x41 c), (N.leb_spec c 0x5A); cbn [andb]; try reflexivity.
  all: destruct (N.eqb_spec (c + 0x20) 0x2D), (N.eqb_spec c 0x2D); try reflexivity; lia.
Qed.

Lemma hex_run_to_lower (n : nat) (s : jsstring) :
  hex_run n (map to_lower s) = option_map (map to_lower) (hex_run n s).
Proof.
  revert s. induction n as [| n IH]; intros [| c s]; try reflexivity.
  cbn [map hex_run]. rewrite is_hex_to_lower.
  destruct (is_hex c); [apply IH | reflexivity].
Qed.

Lemma hex_groups_to_lower (sizes : list nat) (s : jsstring) :
  hex_groups sizes (map to_lower s) = hex_groups sizes s.
Proof.
  revert s. induction sizes as [| n sizes IH]; intros s; [reflexivity |].
  cbn [hex_groups]. rewrite hex_run_to_lower.
  destruct (hex_run n s) as [[| c r] |]; cbn [option_map map];
    destruct sizes; try reflexivity.
  now rewrite dash_to_lower, IH.
Qed.

(** The pattern accepts a string exactly when it accepts its lower-case
    form. *)
Lemma zod_uuid_to_lower (s : jsstring) : zod_uuid (map to_lower s) = zod_uuid s.
Proof. apply hex_groups_to_lower. Qed.

Lemma sample_URL_pathname_colon (s p : jsstring) :
  sample_URL_pathname s = Some p -> In 0x3A%N s.
Proof.
  unfold sample_URL_pathname. intros H.
  destruct (strip_prefix (js "https://") s) as [r |] eqn:Hs.
  - apply strip_prefix_Some in Hs as ->. cbn. auto 10.
  - destruct (strip_prefix (js "http://") s) as [r |] eqn:Hp; [| discriminate].
    apply strip_prefix_Some in Hp as ->. cbn. auto 10.
Qed.

(** ** The identifier extractor *)

Section ExtractorProperties.

Variable patientIdSchema_safeParse : jsstring -> bool.
Variable URL_pathname : jsstring -> option jsstring.

(** Every version of the library's pattern accepts only strings of 36
    hexadecimal digits and dashes. *)
Hypothesis uuid_shape :
  forall s, patientIdSchema_safeParse s = true ->
            length s = 36%nat /\ forallb is_hex_or_dash s = true.

(** An absolute URL has a scheme, which ends in a colon. *)
Hypothesis URL_scheme :
  forall s p, URL_pathname s = Some p -> In 0x3A%N s.

Local Abbreviation extract := (extractPatientId patientIdSchema_safeParse URL_pathname).

Lemma uuid_not_URL (s : jsstring) :
  patientIdSchema_safeParse s = true -> URL_pathname s = None.
Proof.
  intros [_ Hs]%uuid_shape.
  destruct (URL_pathname s) as [p |] eqn:Hp; [| reflexivity].
  apply URL_scheme in Hp.
  apply (proj1 (forallb_forall _ _) Hs) in Hp.
  now apply hex_or_dash_not_colon in Hp.
Qed.

Lemma URL_not_uuid (s p : jsstring) :
  URL_pathname s = Some p -> patientIdSchema_safeParse s = false.
Proof.
  intros Hp. destruct (patientIdSchema_safeParse s) eqn:Hu; [| reflexivity].
  apply uuid_not_URL in Hu. congruence.
Qed.

Lemma extract_Some (S id : jsstring) :
  extract S = Some id <->
  (patientIdSchema_safeParse (trim S) = true /\ id = trim S) \/
  (patientIdSchema_safeParse (trim S) = false /\
   URL_pathname (trim S) = Some (js "/patient/" ++ id) /\
   length id = 36%nat /\ forallb is_hex_or_dash id = true /\
   patientIdSchema_safeParse id = true).
Proof using Type.
  unfold extractPatientId. cbv zeta.
  destruct (patientIdSchema_safeParse (trim S)) eqn:Hu.
  - split; [intros [= <-]; auto | intros [[_ ->] | [? _]]; [reflexivity | discriminate]].
  - destruct (URL_pathname (trim S)) as [p |] eqn:Hp.
    + destruct (match_patient_path p) as [g |] eqn:Hm.
      * apply match_patient_path_Some in Hm as (-> & Hlen & Hg).
        destruct g as [| c g]; [discriminate |].
        destruct (patientIdSchema_safeParse (c :: g)) eqn:Hug.
        -- split; [intros [= <-]; right; auto |].
           intros [[? _] | (_ & Heq & _)]; [discriminate |].
           f_equal. apply (app_inv_head (js "/patient/")). congruence.
        -- split; [discriminate |].
           intros [[? _] | (_ & Heq & _ & _ & Hid)]; [discriminate |].
           assert (c :: g = id) as Hgid
               by (apply (app_inv_head (js "/patient/")); congruence).
           congruence.
      * split; [discriminate |].
        intros [[? _] | (_ & Heq & Hlen & Hg & _)]; [discriminate |].
        assert (match_patient_path (js "/patient/" ++ id) = Some id) as Hid
            by now apply match_patient_path_Some.
        congruence.
    + split; [discriminate | intros [[? _] | (_ & ? & _)]; discriminate].
Qed.

(** C7. For every string whose trimmed form the UUID check accepts, the
    extractor returns that trimmed form, unchanged; for the pattern of
    zod's [uuid()] this covers every mix of upper and lower case, the
    result keeping the case as given. *)
Theorem extractPatientId_bare_uuid (S : jsstring) :
  (patientIdSchema_safeParse (trim S) = true -> extract S = Some (trim S)) /\
  (zod_uuid (map to_lower (trim S)) = true ->
   extractPatientId zod_uuid URL_pathname S = Some (trim S)).
Proof using Type.
  unfold extractPatientId. cbv zeta. rewrite zod_uuid_to_lower.
  split; intros ->; reflexivity.
Qed.

(** C8. A URL whose path is [/patient/] followed by 36 hexadecimal digits
    and dashes that pass the UUID check yields exactly that group; an input
    that is neither such a URL nor a bare UUID yields [null], among them the
    empty string, ["not a uuid"], a URL with another path and a group of
    the wrong length or shape. *)
Theorem extractPatientId_patient_url (S : jsstring) :
  (forall id,
      URL_pathname (trim S) = Some (js "/patient/" ++ id) ->
      length id = 36%nat -> forallb is_hex_or_dash id = true ->
      patientIdSchema_safeParse id = true ->
      extract S = Some id) /\
  (extract S = None <->
   patientIdSchema_safeParse (trim S) = false /\
   forall id, ~ (URL_pathname (trim S) = Some (js "/patient/" ++ id) /\
                 length id = 36%nat /\ forallb is_hex_or_dash id = true /\
                 patientIdSchema_safeParse id = true)) /\
  (forall g,
      URL_pathname (trim S) = Some (js "/patient/" ++ g) ->
      length g <> 36%nat \/ forallb is_hex_or_dash g = false \/
      patientIdSchema_safeParse g = false ->
      extract S = None) /\
  extract (js "") = None /\
  extract (js "not a uuid") = None /\
  (URL_pathname (js "https://example.com/other/123") = Some (js "/other/123") ->
   extract (js "https://example.com/other/123") = None).
Proof.
  assert (Hnone : forall S', extract S' = None <->
            patientIdSchema_safeParse (trim S') = false /\
            forall id, ~ (URL_pathname (trim S') = Some (js "/patient/" ++ id) /\
                          length id = 36%nat /\ forallb is_hex_or_dash id = true /\
                          patientIdSchema_safeParse id = true)).
  { intros S'. split.
    - intros HN. split.
      + destruct (patientIdSchema_safeParse (trim S')) eqn:Hu; [| reflexivity].
        assert (extract S' = Some (trim S')) by (apply extract_Some; auto).
        congruence.
      + intros id (Hp & Hl & Hg & Hid).
        assert (extract S' = Some id); [| congruence].
        apply extract_Some. right.
        split; [eapply URL_not_uuid; eassumption | auto].
    - intros [Hu Hno]. destruct (extract S') as [id |] eqn:HS; [| reflexivity].
      apply extract_Some in HS as [[? _] | (_ & H)]; [congruence |].
      now destruct (Hno id). }
  refine (conj _ (conj _ (conj _ (conj _ (conj _ _))))).
  - intros id Hp Hl Hg Hid. apply extract_Some. right.
    split; [eapply URL_not_uuid; eassumption | auto].
  - apply Hnone.
  - intros g Hp Hbad. apply Hnone. split; [eauto using URL_not_uuid |].
    intros id (Hp' & Hl & Hg & Hid).
    assert (g = id) as ->
        by (apply (app_inv_head (js "/patient/")); congruence).
    destruct Hbad as [? | [? | ?]]; congruence.
  - apply Hnone. split.
    + destruct (patientIdSchema_safeParse (trim (js ""))) eqn:Hu; [| reflexivity].
      now apply uuid_shape in Hu as [? _].
    + intros id (Hp%URL_scheme & _). exact Hp.
  - apply Hnone. split.
    + destruct (patientIdSchema_safeParse (trim (js "not a uuid"))) eqn:Hu; [| reflexivity].
      now apply uuid_shape in Hu as [? _].
    + intros id (Hp%URL_scheme & _). vm_compute in Hp. intuition discriminate.
  - intros Hp. apply Hnone. split.
    + apply (URL_not_uuid _ (js "/other/123")). exact Hp.
    + intros id (Hp' & _). change (trim (js "https://example.com/other/123"))
        with (js "https://example.com/other/123") in Hp'.
      rewrite Hp in Hp'. discriminate.
Qed.

(** C10. Whatever the extractor returns passes the UUID check and is
    returned again, unchanged, when given back to the extractor. *)
Theorem extractPatientId_idempotent (s id : jsstring) :
  extract s = Some id ->
  patientIdSchema_safeParse id = true /\ extract id = Some id.
Proof using uuid_shape.
  intros H.
  assert (patientIdSchema_safeParse id = true) as Hid.
  { apply extract_Some in H as [[Hu ->] | (_ & _ & _ & _ & Hu)]; exact Hu. }
  split; [exact Hid |].
  apply extract_Some. left.
  destruct (uuid_shape id Hid) as [_ Hs].
  rewrite (trim_hex_or_dash id Hs). auto.
Qed.

End ExtractorProperties.

Example extractPatientId_rejects :
  extractPatientId zod_uuid sample_URL_pathname (js "") = None /\
  extractPatientId zod_uuid sample_URL_pathname (js "not a uuid") = None /\
  extractPatientId zod_uuid sample_URL_pathname
    (js "https://example.com/patient/123e4567-e89b-12d3-a456-42661417400") = None /\
  extractPatientId zod_uuid sample_URL_pathname
    (js "https://example.com/patient/123e4567e-89b-12d3-a456-426614174000") = None.
Proof. vm_compute. repeat split; reflexivity. Qed.

Lemma extractPatientId_bare_uuid_witness :
  extractPatientId zod_uuid sample_URL_pathname
    (js "  123E4567-e89b-12D3-a456-426614174000 ")
  = Some (js "123E4567-e89b-12D3-a456-426614174000").
Proof.
  apply (proj2 (extractPatientId_bare_uuid zod_uuid sample_URL_pathname
                  (js "  123E4567-e89b-12D3-a456-426614174000 "))).
  vm_compute. reflexivity.
Defined.

Lemma extractPatientId_patient_url_witness :
  extractPatientId zod_uuid sample_URL_pathname
    (js " https://example.com/patient/123e4567-e89b-12d3-a456-426614174000")
  = Some (js "123e4567-e89b-12d3-a456-426614174000")
  /\ extractPatientId zod_uuid sample_URL_pathname
       (js "https://example.com/other/123") = None.
Proof.
  pose proof (extractPatientId_patient_url zod_uuid sample_URL_pathname
                zod_uuid_shape sample_URL_pathname_colon) as H.
  split.
  - apply (H (js " https://example.com/patient/123e4567-e89b-12d3-a456-426614174000"));
      vm_compute; reflexivity.
  - apply (H []). vm_compute. reflexivity.
Defined.

Lemma extractPatientId_idempotent_witness :
  zod_uuid (js "123e4567-e89b-12d3-a456-426614174000") = true /\
  extractPatientId zod_uuid sample_URL_pathname
    (js "123e4567-e89b-12d3-a456-426614174000")
  = Some (js "123e4567-e89b-12d3-a456-426614174000").
Proof.
  apply (extractPatientId_idempotent zod_uuid sample_URL_pathname zod_uuid_shape
           (js "https://example.com/patient/123e4567-e89b-12d3-a456-426614174000")).
  vm_compute. reflexivity.
Defined.

(** ** The rate limiter *)

Section RateLimiter.

Variable userId : jsstring.

Implicit Types (m : gmap jsstring limit) (now : Z) (entry : limit).

Lemma checkRateLimit_first now m :
  m !! userId = None ->
  checkRateLimit now userId m
  = (true, <[userId := {| count := 1; resetTime := now + 60000 |}]> m).
Proof. unfold checkRateLimit. now intros ->. Qed.

Lemma checkRateLimit_reset now m entry :
  m !! userId = Some entry -> resetTime entry < now ->
  checkRateLimit now userId m
  = (true, <[userId := {| count := 1; resetTime := now + 60000 |}]> m).
Proof.
  unfold checkRateLimit. intros -> H.
  now destruct (Z.gtb_spec now (resetTime entry)); [| lia].
Qed.

Lemma checkRateLimit_deny now m entry :
  m !! userId = Some entry -> now <= resetTime entry -> 10 <= count entry ->
  checkRateLimit now userId m = (false, m).
Proof.
  unfold checkRateLimit, RATE_LIMIT. intros -> H1 H2.
  destruct (Z.gtb_spec now (resetTime entry)); [lia |].
  now destruct (Z.geb_spec (count entry) 10); [| lia].
Qed.

Lemma checkRateLimit_count now m entry :
  m !! userId = Some entry -> now <= resetTime entry -> count entry < 10 ->
  checkRateLimit now userId m
  = (true, <[userId := {| count := count entry + 1;
                          resetTime := resetTime entry |}]> m).
Proof.
  unfold checkRateLimit, RATE_LIMIT. intros -> H1 H2.
  destruct (Z.gtb_spec now (resetTime entry)); [lia |].
  now destruct (Z.geb_spec (count entry) 10); [lia |].
Qed.

(** One call follows the rules of the specification and touches no other
    user's entry. *)
Lemma checkRateLimit_step now m :
  exists entry',
    fixed_window now (m !! userId) (checkRateLimit now userId m).1 entry' /\
    (checkRateLimit now userId m).2 !! userId = Some entry' /\
    (forall other, other <> userId ->
                   (checkRateLimit now userId m).2 !! other = m !! other) /\
    ((checkRateLimit now userId m).1 = false -> (checkRateLimit now userId m).2 = m).
Proof.
  destruct (m !! userId) as [entry |] eqn:Hm.
  - destruct (Z.lt_ge_cases (resetTime entry) now) as [Hexp | Hin].
    + rewrite (checkRateLimit_reset now m entry Hm Hexp). cbn [fst snd].
      eexists. split; [now apply fw_reset |].
      rewrite lookup_insert_eq.
      split; [reflexivity | split; [| discriminate]].
      intros other Hne. now rewrite lookup_insert_ne.
    + destruct (Z.lt_ge_cases (count entry) 10) as [Hlow | Hfull].
      * rewrite (checkRateLimit_count now m entry Hm Hin Hlow). cbn [fst snd].
        eexists. split; [now apply fw_count |].
        rewrite lookup_insert_eq.
        split; [reflexivity | split; [| discriminate]].
        intros other Hne. now rewrite lookup_insert_ne.
      * rewrite (checkRateLimit_deny now m entry Hm Hin Hfull). cbn [fst snd].
        exists entry. split; [now apply fw_deny | auto].
  - rewrite (checkRateLimit_first now m Hm). cbn [fst snd].
    eexists. split; [apply fw_first |].
    rewrite lookup_insert_eq.
    split; [reflexivity | split; [| discriminate]].
    intros other Hne. now rewrite lookup_insert_ne.
Qed.

Lemma calls_app (clock1 clock2 : list Z) m :
  calls (clock1 ++ clock2) userId m
  = ((calls clock1 userId m).1 ++ (calls clock2 userId (calls clock1 userId m).2).1,
     (calls clock2 userId (calls clock1 userId m).2).2).
Proof.
  revert m. induction clock1 as [| now clock1 IH]; intros m; cbn [calls app fst snd].
  - now destruct (calls clock2 userId m).
  - destruct (checkRateLimit now userId m) as [allowed m1].
    rewrite IH. now destruct (calls clock1 userId m1).
Qed.

(** Calls inside the current window: the first [10 - count] are allowed,
    the others denied, and the window is kept. *)
Lemma calls_in_window (clock : list Z) :
  forall m entry,
    m !! userId = Some entry ->
    Forall (fun now => now <= resetTime entry) clock ->
    count entry <= 10 ->
    let allowed := Nat.min (length clock) (Z.to_nat (10 - count entry)) in
    (calls clock userId m).1
    = repeat true allowed ++ repeat false (length clock - allowed) /\
    (calls clock userId m).2 !! userId
    = Some {| count := count entry + Z.of_nat allowed;
              resetTime := resetTime entry |}.
Proof.
  induction clock as [| now clock IH]; intros m entry Hm Hclock Hcount.
  - cbn. rewrite Z.add_0_r. now destruct entry.
  - apply Forall_cons in Hclock as [Hnow Hclock]. cbn [calls length].
    destruct (Z.lt_ge_cases (count entry) 10) as [Hlow | Hfull].
    + rewrite (checkRateLimit_count now m entry Hm Hnow Hlow).
      specialize (IH (<[userId := {| count := count entry + 1;
                                     resetTime := resetTime entry |}]> m)
                    {| count := count entry + 1; resetTime := resetTime entry |}).
      cbn [count resetTime] in IH.
      destruct IH as [IH1 IH2];
        [apply lookup_insert_eq | exact Hclock | lia |].
      destruct (calls clock userId _) as [oks m'].
      cbn [fst snd] in *. cbv zeta.
      replace (Nat.min (S (length clock)) (Z.to_nat (10 - count entry)))
        with (S (Nat.min (length clock) (Z.to_nat (10 - (count entry + 1)))))
        by lia.
      cbn [repeat app Nat.sub]. rewrite IH1, IH2. split; [reflexivity |].
      do 2 f_equal. lia.
    + rewrite (checkRateLimit_deny now m entry Hm Hnow Hfull).
      destruct (IH m entry Hm Hclock Hcount) as [IH1 IH2].
      destruct (calls clock userId m) as [oks m'].
      cbn [fst snd] in *. cbv zeta.
      replace (Z.to_nat (10 - count entry)) with 0%nat in * by lia.
      rewrite Nat.min_0_r in *. rewrite Nat.sub_0_r in *.
      cbn [repeat app] in *. rewrite IH1, IH2. auto.
Qed.

(** The verdict for a user and the user's entry afterwards depend on the
    user's entry only. *)
Lemma checkRateLimit_local now m m' :
  m !! userId = m' !! userId ->
  (checkRateLimit now userId m).1 = (checkRateLimit now userId m').1 /\
  (checkRateLimit now userId m).2 !! userId
  = (checkRateLimit now userId m').2 !! userId.
Proof.
  intros Hm. unfold checkRateLimit. rewrite <- Hm.
  destruct (m !! userId) as [entry |] eqn:He.
  - destruct (now >? resetTime entry);
      [cbn [fst snd]; now rewrite !lookup_insert_eq |].
    destruct (count entry >=? RATE_LIMIT); cbn [fst snd];
      [split; congruence | now rewrite !lookup_insert_eq].
  - cbn [fst snd]. now rewrite !lookup_insert_eq.
Qed.

(** The calls of other users in between change nothing for this user:
    the verdicts on the user's calls, and the user's entry at the end, are
    those of the user's calls made alone. *)
Lemma other_users_do_not_interfere (log : list (Z * jsstring)) :
  forall m m',
    m !! userId = m' !! userId ->
    verdicts_of userId log (requests log m).1
    = (calls (times_of userId log) userId m').1 /\
    (requests log m).2 !! userId
    = (calls (times_of userId log) userId m').2 !! userId.
Proof.
  induction log as [| [now u] log IH]; intros m m' Hm; [cbn; auto |].
  cbn [requests times_of verdicts_of]. unfold jsstring_eqb.
  destruct (bool_decide_reflect (u = userId)) as [-> | Hne].
  - cbn [calls].
    destruct (checkRateLimit_local now m m' Hm) as [Hok Hentry].
    destruct (checkRateLimit now userId m) as [ok m1].
    destruct (checkRateLimit now userId m') as [ok' m1'].
    cbn [fst snd] in Hok, Hentry. subst ok'.
    destruct (IH m1 m1' Hentry) as [IH1 IH2].
    destruct (requests log m1) as [oks m2].
    destruct (calls (times_of userId log) userId m1') as [oks' m2'].
    cbn [fst snd verdicts_of] in *. now rewrite IH1.
  - assert ((checkRateLimit now u m).2 !! userId = m' !! userId) as Hframe.
    { rewrite <- Hm. unfold checkRateLimit.
      destruct (m !! u) as [entry |].
      - destruct (now >? resetTime entry);
          [cbn [snd]; now rewrite lookup_insert_ne |].
        destruct (count entry >=? RATE_LIMIT); cbn [snd];
          [reflexivity | now rewrite lookup_insert_ne].
      - cbn [snd]. now rewrite lookup_insert_ne. }
    destruct (checkRateLimit now u m) as [ok m1]. cbn [snd] in Hframe.
    destruct (IH m1 m' Hframe) as [IH1 IH2].
    destruct (requests log m1) as [oks m2].
    cbn [fst snd verdicts_of] in *. auto.
Qed.

(** A first call and ten more within its window, then one after it. *)
Lemma eleventh_call_denied now m (clock : list Z) (later : Z) :
  match m !! userId with
  | None => True
  | Some entry => resetTime entry < now
  end ->
  length clock = 10%nat ->
  Forall (fun t => t <= now + 60000) clock ->
  now + 60000 < later ->
  (calls (now :: clock ++ [later]) userId m).1
  = [true; true; true; true; true; true; true; true; true; true; false; true] /\
  (calls (now :: clock ++ [later]) userId m).2 !! userId
  = Some {| count := 1; resetTime := later + 60000 |}.
Proof.
  intros Hfirst Hlen Hclock Hlater.
  assert (checkRateLimit now userId m
          = (true, <[userId := {| count := 1; resetTime := now + 60000 |}]> m))
    as Hnow.
  { destruct (m !! userId) as [entry |] eqn:Hm;
      eauto using checkRateLimit_first, checkRateLimit_reset. }
  cbn [calls]. rewrite Hnow.
  set (m1 := <[userId := _]> m).
  rewrite calls_app.
  destruct (calls_in_window clock m1 {| count := 1; resetTime := now + 60000 |})
    as [Hoks Hm2]; [apply lookup_insert_eq | exact Hclock | cbn; lia |].
  cbn [count resetTime] in Hoks, Hm2. rewrite Hlen in Hoks, Hm2.
  change (Nat.min 10 (Z.to_nat (10 - 1))) with 9%nat in Hoks, Hm2.
  destruct (calls clock userId m1) as [oks m2]. cbn [fst snd] in *.
  cbn [calls].
  rewrite (checkRateLimit_reset later m2 _ Hm2) by (cbn; lia).
  cbn [fst snd app]. rewrite Hoks, lookup_insert_eq. split; reflexivity.
Qed.

(** C3. [checkRateLimit] is the fixed-window counter of the specification:
    a missing or expired entry is set to count 1 with a window of 60
    seconds and the call allowed; at count 10 or more the call is denied and
    the map left as it is; otherwise the count goes up by one and the call is
    allowed; no other user's entry changes.  Hence, whatever other users
    call in between, of the calls a user makes after a first one and no
    later than 60 seconds after it, the tenth (the 11th call in all) is
    denied, and a call after the window is allowed and leaves the count at
    1. *)
Theorem checkRateLimit_fixed_window now m
    (log : list (Z * jsstring)) (clock : list Z) (later : Z) :
  (exists entry',
      fixed_window now (m !! userId) (checkRateLimit now userId m).1 entry' /\
      (checkRateLimit now userId m).2 !! userId = Some entry' /\
      (forall other, other <> userId ->
                     (checkRateLimit now userId m).2 !! other = m !! other) /\
      ((checkRateLimit now userId m).1 = false ->
       (checkRateLimit now userId m).2 = m)) /\
  (match m !! userId with
   | None => True
   | Some entry => resetTime entry < now
   end ->
   times_of userId log = now :: clock ++ [later] ->
   length clock = 10%nat ->
   Forall (fun t => t <= now + 60 * 1000) clock ->
   now + 60 * 1000 < later ->
   verdicts_of userId log (requests log m).1
   = [true; true; true; true; true; true; true; true; true; true; false; true] /\
   (requests log m).2 !! userId
   = Some {| count := 1; resetTime := later + 60 * 1000 |}).
Proof.
  split; [apply checkRateLimit_step |].
  intros Hfirst Htimes Hlen Hclock Hlater.
  destruct (other_users_do_not_interfere log m m eq_refl) as [Hoks Hentry].
  rewrite Hoks, Hentry, Htimes.
  now apply eleventh_call_denied.
Qed.

End RateLimiter.

Lemma checkRateLimit_fixed_window_witness :
  let log := [ (0, js "responder-1"); (1, js "responder-1"); (1, js "responder-2");
               (2, js "responder-1"); (3, js "responder-1"); (4, js "responder-1");
               (5, js "responder-1"); (5, js "responder-2"); (6, js "responder-1");
               (7, js "responder-1"); (8, js "responder-1"); (9, js "responder-1");
               (60000, js "responder-1"); (60000, js "responder-2");
               (60001, js "responder-1") ] in
  verdicts_of (js "responder-1") log (requests log ∅).1
  = [true; true; true; true; true; true; true; true; true; true; false; true] /\
  (requests log ∅).2 !! js "responder-1"
  = Some {| count := 1; resetTime := 120001 |}.
Proof.
  cbv zeta.
  apply (proj2 (checkRateLimit_fixed_window (js "responder-1") 0 ∅ _
                  [1; 2; 3; 4; 5; 6; 7; 8; 9; 60000] 60001)).
  - exact I.
  - reflexivity.
  - reflexivity.
  - repeat constructor; lia.
  - lia.
Defined.

(** ** [JSON.parse] *)

Lemma skip_ws_length (s : jsstring) : (length (skip_ws s) <= length s)%nat.
Proof.
  induction s as [| c s IH]; [reflexivity |].
  cbn [skip_ws]. destruct (_ || _); cbn [length]; lia.
Qed.

Lemma strip_prefix_length (p s r : jsstring) :
  strip_prefix p s = Some r -> length s = (length p + length r)%nat.
Proof. intros ->%strip_prefix_Some. apply length_app. Qed.

Lemma take_digits_length (s ds r : jsstring) :
  take_digits s = (ds, r) -> length s = (length ds + length r)%nat.
Proof.
  revert ds r. induction s as [| c s IH]; intros ds r H; cbn [take_digits] in H.
  - now injection H as <- <-.
  - destruct (is_digit c).
    + destruct (take_digits s) as [ds' r'] eqn:E. injection H as <- <-.
      cbn [length]. rewrite (IH ds' r' eq_refl). reflexivity.
    + now injection H as <- <-.
Qed.


Lemma parse_string_chars_spec (s : jsstring) :
  match parse_string_chars s with
  | Parsed _ r => (length r < length s)%nat
  | SyntaxError => True
  | OutOfFuel => False
  end.
Proof.
  induction s as [s IH] using (induction_ltof1 _ (@length N)).
  unfold ltof in IH.
  destruct s as [| c s]; [exact I |].
  cbn [parse_string_chars]. cbv zeta.
  repeat match goal with
    | |- context [match parse_string_chars ?x with _ => _ end] =>
        let E := fresh "E" in
        pose proof (IH x) as E; destruct (parse_string_chars x)
    | |- context [match ?x with _ => _ end] =>
        lazymatch x with
        | context [match _ with _ => _ end] => fail
        | _ => destruct x eqn:?
        end
    end; cbn [length] in *; try exact I; try lia.
  all: try (apply E; lia).
Qed.

Lemma parse_number_spec (s : jsstring) :
  match parse_number s with
  | Parsed _ r => (length r < length s)%nat
  | SyntaxError => True
  | OutOfFuel => False
  end.
Proof.
  unfold parse_number.
  repeat match goal with
    | |- context [match ?x with _ => _ end] =>
        lazymatch x with
        | context [match _ with _ => _ end] => fail
        | _ => destruct x eqn:?
        end
    end; try exact I.
  all: repeat match goal with
         | H : (_, _) = (_, _) |- _ => injection H as <- <-
         | H : Some _ = Some _ |- _ => injection H as H
         | H : take_digits _ = (_, _) |- _ => apply take_digits_length in H
         end; subst; cbn [length] in *; try discriminate; lia.
Qed.

Lemma map_parsed_spec {A B : Type} (f : A -> B) (p : parsed A) (n : nat) :
  match p with
  | Parsed _ r => (length r < n)%nat
  | SyntaxError => True
  | OutOfFuel => False
  end ->
  match map_parsed f p with
  | Parsed _ r => (length r < n)%nat
  | SyntaxError => True
  | OutOfFuel => False
  end.
Proof. now destruct p. Qed.

(** What is parsed is a proper prefix of the input. *)
Lemma parse_shorter (fuel : nat) :
  (forall s v r, parse_value fuel s = Parsed v r -> (length r < length s)%nat) /\
  (forall s vs r, parse_elements fuel s = Parsed vs r -> (length r < length s)%nat) /\
  (forall s ms r, parse_members fuel s = Parsed ms r -> (length r < length s)%nat).
Proof.
  induction fuel as [| fuel (IHv & IHe & IHm)]; [repeat split; discriminate |].
  repeat split; intros s x r H.
  - cbn [parse_value] in H. unfold map_parsed in H.
    pose proof (skip_ws_length s) as Hws.
    destruct (skip_ws s) as [| c s1]; [discriminate |]. cbn [length] in Hws.
    destruct (c =? 0x5B)%N.
    { pose proof (skip_ws_length s1) as Hws1.
      destruct (skip_ws s1) as [| d s2]; [discriminate |]. cbn [length] in Hws1.
      destruct (d =? 0x5D)%N; [injection H as <- <-; lia |].
      destruct (parse_elements fuel s1) eqn:E; try discriminate.
      injection H as <- <-. apply IHe in E. lia. }
    destruct (c =? 0x7B)%N.
    { pose proof (skip_ws_length s1) as Hws1.
      destruct (skip_ws s1) as [| d s2]; [discriminate |]. cbn [length] in Hws1.
      destruct (d =? 0x7D)%N; [injection H as <- <-; lia |].
      destruct (parse_members fuel s1) eqn:E; try discriminate.
      injection H as <- <-. apply IHm in E. lia. }
    destruct (c =? 0x22)%N.
    { pose proof (parse_string_chars_spec s1) as E.
      destruct (parse_string_chars s1); try discriminate.
      injection H as <- <-. lia. }
    destruct (strip_prefix (js "null") (c :: s1)) eqn:E1.
    { injection H as <- <-. apply strip_prefix_length in E1.
      change (length (js "null")) with 4%nat in E1. cbn [length] in E1. lia. }
    destruct (strip_prefix (js "true") (c :: s1)) eqn:E2.
    { injection H as <- <-. apply strip_prefix_length in E2.
      change (length (js "true")) with 4%nat in E2. cbn [length] in E2. lia. }
    destruct (strip_prefix (js "false") (c :: s1)) eqn:E3.
    { injection H as <- <-. apply strip_prefix_length in E3.
      change (length (js "false")) with 5%nat in E3. cbn [length] in E3. lia. }
    pose proof (parse_number_spec (c :: s1)) as E.
    destruct (parse_number (c :: s1)); try discriminate.
    injection H as <- <-. cbn [length] in E. lia.
  - cbn [parse_elements] in H. unfold map_parsed in H.
    destruct (parse_value fuel s) as [v s1 | |] eqn:Ev; try discriminate.
    apply IHv in Ev. pose proof (skip_ws_length s1) as Hws.
    destruct (skip_ws s1) as [| c s2]; [discriminate |]. cbn [length] in Hws.
    destruct (c =? 0x2C)%N.
    { destruct (parse_elements fuel s2) eqn:E; try discriminate.
      injection H as <- <-. apply IHe in E. lia. }
    destruct (c =? 0x5D)%N; [| discriminate].
    injection H as <- <-. lia.
  - cbn [parse_members] in H. unfold map_parsed in H.
    pose proof (skip_ws_length s) as Hws.
    destruct (skip_ws s) as [| q s0]; [discriminate |]. cbn [length] in Hws.
    destruct (q =? 0x22)%N; [| discriminate].
    pose proof (parse_string_chars_spec s0) as Ek.
    destruct (parse_string_chars s0) as [k s1 | |]; try discriminate.
    pose proof (skip_ws_length s1) as Hws1.
    destruct (skip_ws s1) as [| colon s2]; [discriminate |]. cbn [length] in Hws1.
    destruct (colon =? 0x3A)%N; [| discriminate].
    destruct (parse_value fuel s2) as [v s3 | |] eqn:Ev; try discriminate.
    apply IHv in Ev. pose proof (skip_ws_length s3) as Hws3.
    destruct (skip_ws s3) as [| c s4]; [discriminate |]. cbn [length] in Hws3.
    destruct (c =? 0x2C)%N.
    { destruct (parse_members fuel s4) eqn:E; try discriminate.
      injection H as <- <-. apply IHm in E. lia. }
    destruct (c =? 0x7D)%N; [| discriminate].
    injection H as <- <-. lia.
Qed.

(** Fuel linear in the length of the text is enough. *)
Lemma parse_enough_fuel (fuel : nat) :
  (forall s, (2 * length s + 1 <= fuel)%nat -> parse_value fuel s <> OutOfFuel) /\
  (forall s, (2 * length s + 2 <= fuel)%nat -> parse_elements fuel s <> OutOfFuel) /\
  (forall s, (2 * length s + 2 <= fuel)%nat -> parse_members fuel s <> OutOfFuel).
Proof.
  induction fuel as [| fuel (IHv & IHe & IHm)]; [repeat split; intros; lia |].
  destruct (parse_shorter fuel) as (Sv & Se & Sm).
  repeat split; intros s Hfuel H.
  - cbn [parse_value] in H. unfold map_parsed in H.
    pose proof (skip_ws_length s) as Hws.
    destruct (skip_ws s) as [| c s1]; [discriminate |]. cbn [length] in Hws.
    destruct (c =? 0x5B)%N.
    { destruct (skip_ws s1) as [| d s2]; [discriminate |].
      destruct (d =? 0x5D)%N; [discriminate |].
      destruct (parse_elements fuel s1) eqn:E; try discriminate.
      apply IHe in E; [exact E | lia]. }
    destruct (c =? 0x7B)%N.
    { destruct (skip_ws s1) as [| d s2]; [discriminate |].
      destruct (d =? 0x7D)%N; [discriminate |].
      destruct (parse_members fuel s1) eqn:E; try discriminate.
      apply IHm in E; [exact E | lia]. }
    destruct (c =? 0x22)%N.
    { pose proof (parse_string_chars_spec s1) as E.
      destruct (parse_string_chars s1); try discriminate. exact E. }
    destruct (strip_prefix (js "null") (c :: s1)); [discriminate |].
    destruct (strip_prefix (js "true") (c :: s1)); [discriminate |].
    destruct (strip_prefix (js "false") (c :: s1)); [discriminate |].
    pose proof (parse_number_spec (c :: s1)) as E.
    destruct (parse_number (c :: s1)); try discriminate. exact E.
  - cbn [parse_elements] in H. unfold map_parsed in H.
    destruct (parse_value fuel s) as [v s1 | |] eqn:Ev; try discriminate.
    + apply Sv in Ev. pose proof (skip_ws_length s1) as Hws.
      destruct (skip_ws s1) as [| c s2]; [discriminate |]. cbn [length] in Hws.
      destruct (c =? 0x2C)%N.
      { destruct (parse_elements fuel s2) eqn:E; try discriminate.
        apply IHe in E; [exact E | lia]. }
      destruct (c =? 0x5D)%N; discriminate.
    + apply IHv in Ev; [exact Ev | lia].
  - cbn [parse_members] in H. unfold map_parsed in H.
    pose proof (skip_ws_length s) as Hws.
    destruct (skip_ws s) as [| q s0]; [discriminate |]. cbn [length] in Hws.
    destruct (q =? 0x22)%N; [| discriminate].
    pose proof (parse_string_chars_spec s0) as Ek.
    destruct (parse_string_chars s0) as [k s1 | |]; try discriminate; [| exact Ek].
    pose proof (skip_ws_length s1) as Hws1.
    destruct (skip_ws s1) as [| colon s2]; [discriminate |]. cbn [length] in Hws1.
    destruct (colon =? 0x3A)%N; [| discriminate].
    destruct (parse_value fuel s2) as [v s3 | |] eqn:Ev; try discriminate.
    + apply Sv in Ev. pose proof (skip_ws_length s3) as Hws3.
      destruct (skip_ws s3) as [| c s4]; [discriminate |]. cbn [length] in Hws3.
      destruct (c =? 0x2C)%N.
      { destruct (parse_members fuel s4) eqn:E; try discriminate.
        apply IHm in E; [exact E | lia]. }
      destruct (c =? 0x7D)%N; discriminate.
    + apply IHv in Ev; [exact Ev | lia].
Qed.

(** [JSON_parse] never fails for lack of fuel: a text it rejects has a syntax
    error, or something other than white space after its value. *)
Lemma JSON_parse_fuel (text : jsstring) :
  parse_value (2 * length text + 1) text <> OutOfFuel.
Proof. now apply parse_enough_fuel. Qed.



Lemma get_None (v : value) (k : jsstring) :
  get v k = None <-> v = VUndefined \/ v = VNull.
Proof. destruct v; cbn; intuition discriminate. Qed.

Example JSON_parse_values :
  JSON_parse (jsq " [1, -2.50e+3, true, null, {'a': 'x\u0041'}] ")
  = Some (VArr [ VNum {| mant := 1; expo := 0 |};
                 VNum {| mant := -250; expo := 1 |};
                 VBool true; VNull;
                 VObj [(js "a", VStr (js "xA"))] ]).
Proof. vm_compute. reflexivity. Qed.

Example JSON_parse_rejects :
  JSON_parse (js "") = None /\ JSON_parse (js "01") = None /\
  JSON_parse (js "[1,]") = None /\ JSON_parse (js "nul") = None /\
  JSON_parse (js "1 2") = None /\ JSON_parse (js "undefined") = None.
Proof. vm_compute. repeat split; reflexivity. Qed.

Example truthy_numbers :
  truthy (VNum {| mant := 0; expo := 0 |}) = false /\
  truthy (VNum {| mant := 1; expo := -400 |}) = false /\
  truthy (VNum {| mant := 5; expo := -324 |}) = true /\
  truthy (VNum {| mant := 1; expo := 0 |}) = true.
Proof. vm_compute. repeat split; reflexivity. Qed.

(** ** The ai-diagnosis handler *)



(** Unfolding of the monad and of the record projections. *)
Ltac simp :=
  cbv beta iota zeta
      delta [bind ret respond throw emit await when prop optional_join
             checkRateLimitM status body rateLimitMap trace user authError
             roles roleError ai_status ai_json method Authorization getUser
             Date_now user_roles request_json LOVABLE_API_KEY ai_gateway
             access_logs_error with_access_logs_error fst snd app negb orb andb].

(** Case analysis on an innermost scrutinee of the goal. *)
Ltac split_match :=
  match goal with
  | |- context [match ?x with _ => _ end] =>
      lazymatch x with
      | context [match _ with _ => _ end] => fail
      | _ => destruct x eqn:?
      end
  end.

(** All the paths through the handler, one goal each. *)
Ltac run_handler :=
  unfold serve, handler, try_block; simp; repeat (split_match; simp).

Ltac norm :=
  repeat match goal with
    | H : negb _ = false |- _ => apply negb_false_iff in H
    | H : negb _ = true |- _ => apply negb_true_iff in H
    | H : (_ || _) = false |- _ => apply orb_false_iff in H as [? ?]
    | H : bool_decide _ = true |- _ => apply bool_decide_eq_true in H
    | H : bool_decide _ = false |- _ => apply bool_decide_eq_false in H
    | H : jsstring_eqb _ _ = _ |- _ => unfold jsstring_eqb in H
    | H : ¬ (?x ≠ None) |- _ =>
        assert (x = None) by (destruct x; [exfalso; apply H; discriminate | reflexivity]);
        clear H
    | H : Some _ = Some _ |- _ => injection H as H
    | H : Resolves _ = Resolves _ |- _ => injection H as H
    end; subst.

(** An event of a known trace. *)
Ltac in_trace H :=
  cbv [In] in H;
  repeat match type of H with
    | _ \/ _ => destruct H as [H | H]
    end;
  try discriminate H; try contradiction.

Section HandlerProperties.

Variable Number_toString : number -> jsstring.
Local Abbreviation serve := (serve Number_toString).

Implicit Types (e : env) (m : gmap jsstring limit).

(** The model endpoint is called only after every guard has passed. *)
Lemma fetch_after_guards e m (patientData : value) :
  In (fetch_ai_gateway patientData) (trace (serve e m).2) ->
  method e <> js "OPTIONS" /\
  absent (Authorization e) = false /\
  authError (getUser e) = None /\
  (exists id, user (getUser e) = Some id /\
              (checkRateLimit (Date_now e) id m).1 = true /\
              rateLimitMap (serve e m).2 = (checkRateLimit (Date_now e) id m).2) /\
  roleError (user_roles e) = None /\
  (exists rows, roles (user_roles e) = Some rows /\
                existsb privileged rows = true) /\
  (exists request,
      request_json e = Resolves request /\
      get request (js "patientData") = Some patientData /\
      truthy patientData = true /\
      truthy (get_opt patientData (js "name")) = true /\
      truthy (get_opt patientData (js "age")) = true /\
      truthy (get_opt patientData (js "bloodType")) = true) /\
  absent (LOVABLE_API_KEY e) = false.
Proof.
  destruct e as [mth auth [uid aerr] now [rows rerr] rq key gw lerr].
  run_handler; intros Hin; in_trace Hin; injection Hin as ->; norm.
  all: split; [assumption |].
  all: do 2 (split; [reflexivity |]).
  all: split;
    [ eexists; split; [reflexivity |];
      match goal with H : checkRateLimit _ _ _ = _ |- _ => rewrite H end;
      split; reflexivity |].
  all: split; [reflexivity |].
  all: split; [eexists; split; [reflexivity | assumption] |].
  all: split; [| reflexivity].
  all: eexists; split; [reflexivity |].
  all: unfold get_opt;
    repeat match goal with H : get _ _ = Some _ |- _ => rewrite H end;
    cbn [from_option]; auto.
Qed.

(** No [Authorization] header: 401, and nothing else happens. *)
Lemma no_token e m :
  method e <> js "OPTIONS" -> absent (Authorization e) = true ->
  serve e m
  = ({| status := 401; body := ErrorBody (js "Authorization required") |},
     {| rateLimitMap := m; trace := [console error] |}).
Proof.
  destruct e as [mth auth [uid aerr] now [rows rerr] rq key gw lerr].
  run_handler; intros Hm Ha; norm; congruence.
Qed.

(** The three exits of the role gate. *)
Lemma role_gate_exits e m (id : jsstring) :
  In (select_user_roles id) (trace (serve e m).2) ->
  (roleError (user_roles e) <> None /\
   (serve e m).1
   = {| status := 500; body := ErrorBody (js "Failed to verify user role") |} /\
   ~ In req_json (trace (serve e m).2) /\
   forall pd, ~ In (fetch_ai_gateway pd) (trace (serve e m).2)) \/
  (roleError (user_roles e) = None /\
   (forall rows, roles (user_roles e) = Some rows ->
                 existsb privileged rows = false) /\
   (serve e m).1
   = {| status := 403;
        body := ErrorBody
          (js "Insufficient permissions. Medical responder or admin role required.") |} /\
   ~ In req_json (trace (serve e m).2) /\
   forall pd, ~ In (fetch_ai_gateway pd) (trace (serve e m).2)) \/
  (roleError (user_roles e) = None /\
   (exists rows, roles (user_roles e) = Some rows /\
                 existsb privileged rows = true) /\
   In req_json (trace (serve e m).2)).
Proof.
  destruct e as [mth auth [uid aerr] now [rows rerr] rq key gw lerr].
  run_handler; intros Hin; in_trace Hin; norm.
  all: first
    [ left; repeat split;
        [ assumption | intros H; in_trace H | intros pd H; in_trace H ]
    | right; left; repeat split;
        [ congruence | intros H; in_trace H | intros pd H; in_trace H ]
    | right; right; repeat split; [eauto | cbv [In]; tauto ] ].
Qed.


Lemma ok_status (resp : ai_response) :
  ok resp = true -> ai_status resp <> 429 /\ ai_status resp <> 402.
Proof. unfold ok. lia. Qed.





Lemma reaches_role_gate e m (id : jsstring) :
  method e <> js "OPTIONS" ->
  absent (Authorization e) = false ->
  authError (getUser e) = None ->
  user (getUser e) = Some id ->
  (checkRateLimit (Date_now e) id m).1 = true ->
  In (select_user_roles id) (trace (serve e m).2).
Proof.
  destruct e as [mth auth [uid aerr] now [rows rerr] rq key gw lerr].
  intros Hm Ha He Hu. cbv [getUser user authError] in He, Hu. subst aerr uid.
  revert Hm Ha.
  run_handler; intros Hm Ha Hrl; norm; try congruence.
  all: try (cbv [In]; tauto).
  all: match goal with
       | H : checkRateLimit _ _ _ = _ |- _ => rewrite H in Hrl
       end; discriminate.
Qed.

(** The local validation of the request body. *)
Lemma patient_data_validation e m (request patientData : value) :
  In req_json (trace (serve e m).2) ->
  request_json e = Resolves request ->
  get request (js "patientData") = Some patientData ->
  (truthy patientData = false ->
   (serve e m).1
   = {| status := 400; body := ErrorBody (js "Patient data required") |}) /\
  (truthy patientData = true ->
   truthy (get_opt patientData (js "name")) = false \/
   truthy (get_opt patientData (js "age")) = false \/
   truthy (get_opt patientData (js "bloodType")) = false ->
   (serve e m).1
   = {| status := 400; body := ErrorBody (js "Invalid patient data structure") |}) /\
  (truthy patientData = true ->
   truthy (get_opt patientData (js "name")) = true ->
   truthy (get_opt patientData (js "age")) = true ->
   truthy (get_opt patientData (js "bloodType")) = true ->
   status (serve e m).1 <> 400 \/ exists pd, In (fetch_ai_gateway pd) (trace (serve e m).2)).
Proof.
  destruct e as [mth auth [uid aerr] now [rows rerr] rq key gw lerr].
  intros Hin Hrq Hpd. cbv [request_json] in Hrq. subst rq. revert Hin.
  run_handler; intros Hin; in_trace Hin; norm.
  all: unfold get_opt;
    repeat match goal with
      | H : get _ _ = _ |- _ => rewrite H
      end; cbv [from_option id].
  all: try match goal with
         | H : get ?v _ = None, H' : truthy ?v = true |- _ =>
             destruct v; discriminate
         end.
  all: split; [congruence |];
    split; [intros ? [? | [? | ?]]; congruence |].
  all: intros; try congruence.
  all: try (left; cbv [status]; discriminate).
  all: right; eexists; cbv [In]; eauto 10.
Qed.

(** C4. The model endpoint is called only when the token is present and
    valid, the rate limit allows, the role fetch succeeds with a privileged
    role and [patientData] is present with its required fields.  A request
    without a token is answered 401 with the rate-limit map untouched and
    nothing but the error message written; an authenticated caller without
    a privileged role is answered 403 and no model call is made. *)
Theorem model_call_only_after_guards e m :
  (forall patientData,
      In (fetch_ai_gateway patientData) (trace (serve e m).2) ->
      method e <> js "OPTIONS" /\
      absent (Authorization e) = false /\
      authError (getUser e) = None /\
      (exists id, user (getUser e) = Some id /\
                  (checkRateLimit (Date_now e) id m).1 = true /\
                  rateLimitMap (serve e m).2
                  = (checkRateLimit (Date_now e) id m).2) /\
      roleError (user_roles e) = None /\
      (exists rows, roles (user_roles e) = Some rows /\
                    existsb privileged rows = true) /\
      (exists request,
          request_json e = Resolves request /\
          get request (js "patientData") = Some patientData /\
          truthy patientData = true /\
          truthy (get_opt patientData (js "name")) = true /\
          truthy (get_opt patientData (js "age")) = true /\
          truthy (get_opt patientData (js "bloodType")) = true) /\
      absent (LOVABLE_API_KEY e) = false) /\
  (method e <> js "OPTIONS" -> absent (Authorization e) = true ->
   (serve e m).1
   = {| status := 401; body := ErrorBody (js "Authorization required") |} /\
   rateLimitMap (serve e m).2 = m /\
   trace (serve e m).2 = [console error]) /\
  (forall id rows,
      method e <> js "OPTIONS" ->
      absent (Authorization e) = false ->
      authError (getUser e) = None ->
      user (getUser e) = Some id ->
      (checkRateLimit (Date_now e) id m).1 = true ->
      roleError (user_roles e) = None ->
      roles (user_roles e) = Some rows ->
      existsb privileged rows = false ->
      (serve e m).1
      = {| status := 403;
           body := ErrorBody
             (js "Insufficient permissions. Medical responder or admin role required.") |} /\
      forall patientData,
        ~ In (fetch_ai_gateway patientData) (trace (serve e m).2)).
Proof.
  split; [apply fetch_after_guards |]. split.
  - intros Hm Ha. now rewrite (no_token e m Hm Ha).
  - intros id rows Hm Ha He Hu Hrl Hre Hrows Hnone.
    pose proof (reaches_role_gate e m id Hm Ha He Hu Hrl) as Hin.
    destruct (role_gate_exits e m id Hin)
      as [(Hne & _) | [(_ & _ & -> & _ & Hnf) | (_ & (rows' & Hr & Hp) & _)]].
    + congruence.
    + split; [reflexivity | exact Hnf].
    + congruence.
Qed.






End HandlerProperties.

(** C2, where the handler departs from it.  A request whose [patientData]
    has all three required attributes, with age 0, is answered 400
    "Invalid patient data structure" and the model is not called; the same
    request with age 1 is answered 200. *)
Theorem age_zero_is_rejected :
  get (patient "Baby Doe" 0 "O+") (js "age") = Some (VNum {| mant := 0; expo := 0 |}) /\
  (serve sample_Number_toString newborn_env ∅).1
  = {| status := 400; body := ErrorBody (js "Invalid patient data structure") |} /\
  trace (serve sample_Number_toString newborn_env ∅).2
  = [auth_getUser (js "Bearer token"); console log;
     rateLimitMap_access (js "responder-1"); select_user_roles (js "responder-1");
     req_json] /\
  (serve sample_Number_toString infant_env ∅).1
  = {| status := 200; body := AnalysisBody urgent_analysis |}.
Proof. vm_compute. repeat split; reflexivity. Qed.



(** Membership of an event in the trace of a closed run. *)
Ltac event_in_trace :=
  vm_compute; repeat first [left; reflexivity | right].

Lemma POST_is_not_OPTIONS : js "POST" <> js "OPTIONS".
Proof. discriminate. Qed.

Lemma model_call_only_after_guards_witness :
  (serve sample_Number_toString no_token_env ∅).1
  = {| status := 401; body := ErrorBody (js "Authorization required") |} /\
  rateLimitMap (serve sample_Number_toString no_token_env ∅).2 = ∅ /\
  trace (serve sample_Number_toString no_token_env ∅).2 = [console error].
Proof.
  apply (proj1 (proj2 (model_call_only_after_guards sample_Number_toString
                         no_token_env ∅))).
  - exact POST_is_not_OPTIONS.
  - reflexivity.
Defined.





(* ================================================================== *)
(** * Part III. Further properties of the code *)
(* ================================================================== *)

(** ** The rate limiter over any sequence of calls *)

Section RateLimiterInvariants.

Implicit Types (m : gmap jsstring limit) (log : list (Z * jsstring)).

Lemma checkRateLimit_keeps_bounds now (u : jsstring) m :
  map_Forall count_in_bounds m ->
  map_Forall count_in_bounds (checkRateLimit now u m).2.
Proof.
  intros Hm. unfold checkRateLimit.
  destruct (m !! u) as [entry |] eqn:Hu.
  - destruct (now >? resetTime entry); cbn [snd].
    + apply map_Forall_insert_2; [| exact Hm]. unfold count_in_bounds, RATE_LIMIT. cbn. lia.
    + destruct (Z.geb_spec (count entry) RATE_LIMIT); cbn [snd]; [exact Hm |].
      apply map_Forall_insert_2; [| exact Hm].
      pose proof (map_Forall_lookup_1 _ _ _ _ Hm Hu) as Hb.
      unfold count_in_bounds in *. cbn. lia.
  - cbn [snd]. apply map_Forall_insert_2; [| exact Hm].
    unfold count_in_bounds, RATE_LIMIT. cbn. lia.
Qed.

Lemma checkRateLimit_dom now (u : jsstring) m :
  dom (checkRateLimit now u m).2 = {[u]} ∪ dom m.
Proof.
  unfold checkRateLimit.
  destruct (m !! u) as [entry |] eqn:Hu.
  - assert (u ∈ dom m) by (apply elem_of_dom; eauto).
    destruct (now >? resetTime entry); cbn [snd];
      [rewrite dom_insert_L; reflexivity |].
    destruct (count entry >=? RATE_LIMIT); cbn [snd];
      [| rewrite dom_insert_L; reflexivity].
    symmetry. apply subseteq_union_1_L, singleton_subseteq_l. assumption.
  - cbn [snd]. rewrite dom_insert_L. reflexivity.
Qed.

(** X1. Every count stays between 1 and the limit of 10, whatever calls
    are made by whatever users at whatever clock readings. *)
Theorem counts_stay_in_bounds log m :
  map_Forall (fun _ entry => 1 <= count entry <= 10) m ->
  map_Forall (fun _ entry => 1 <= count entry <= 10) (requests log m).2.
Proof.
  revert m. induction log as [| [now u] log IH]; intros m Hm; [exact Hm |].
  cbn [requests].
  pose proof (checkRateLimit_keeps_bounds now u m Hm) as H1.
  destruct (checkRateLimit now u m) as [ok m1]. cbn [snd] in H1.
  specialize (IH m1 H1).
  destruct (requests log m1) as [oks m2]. exact IH.
Qed.

(** X2. An entry is made for every user who calls and none is ever
    removed: afterwards the map has an entry for exactly the users it had
    one for and the users who called. *)
Theorem entries_are_never_removed log m :
  dom (requests log m).2 = dom m ∪ list_to_set (map snd log).
Proof.
  revert m. induction log as [| [now u] log IH]; intros m.
  - cbn [requests map list_to_set snd]. rewrite (right_id_L ∅ (∪)). reflexivity.
  - cbn [requests map snd list_to_set].
    pose proof (checkRateLimit_dom now u m) as H1.
    destruct (checkRateLimit now u m) as [ok m1]. cbn [snd] in H1.
    specialize (IH m1).
    destruct (requests log m1) as [oks m2]. cbn [snd] in *.
    rewrite IH, H1, (comm_L (∪) {[u]} (dom m)), <- (assoc_L (∪)). reflexivity.
Qed.

(** X3. While the window of a user's entry with count [c] lasts, the
    limiter allows the next [10 - c] calls of the user and denies every
    later one, whatever other users call in between, and the window does
    not move. *)
Theorem window_budget (u : jsstring) log m (entry : limit) :
  m !! u = Some entry ->
  Forall (fun now => now <= resetTime entry) (times_of u log) ->
  count entry <= 10 ->
  let calls_made := length (times_of u log) in
  let allowed := Nat.min calls_made (Z.to_nat (10 - count entry)) in
  verdicts_of u log (requests log m).1
  = repeat true allowed ++ repeat false (calls_made - allowed) /\
  (requests log m).2 !! u
  = Some {| count := count entry + Z.of_nat allowed;
            resetTime := resetTime entry |}.
Proof.
  intros Hm Hclock Hcount.
  destruct (other_users_do_not_interfere u log m m eq_refl) as [-> ->].
  now apply calls_in_window.
Qed.

Lemma span_bound_le (from c R : Z) (clock : list Z) :
  1 <= c <= 10 -> span_bound from c R clock <= 19.
Proof.
  intros Hc. unfold span_bound, RATE_LIMIT.
  destruct clock; [lia |].
  repeat match goal with
    | |- context [Z.ltb ?a ?b] => destruct (Z.ltb_spec a b)
    | |- context [Z.leb ?a ?b] => destruct (Z.leb_spec a b)
    end; lia.
Qed.

Ltac compare_all :=
  repeat match goal with
    | H : context [Z.ltb ?a ?b] |- _ => destruct (Z.ltb_spec a b)
    | H : context [Z.leb ?a ?b] |- _ => destruct (Z.leb_spec a b)
    | |- context [Z.ltb ?a ?b] => destruct (Z.ltb_spec a b)
    | |- context [Z.leb ?a ?b] => destruct (Z.leb_spec a b)
    end.

Lemma allowed_within_span (from : Z) (u : jsstring) (clock : list Z) :
  Sorted Z.le clock ->
  forall m entry,
    m !! u = Some entry ->
    1 <= count entry <= 10 ->
    Z.of_nat (allowed_within from clock (calls clock u m).1)
    <= span_bound from (count entry) (resetTime entry) clock.
Proof.
  induction 1 as [| now clock Hsorted IH Hhd]; intros m entry Hm Hc.
  - cbn. lia.
  - cbn [calls].
    assert (match clock with [] => True | next :: _ => now <= next end) as Hnext
        by (destruct Hhd; auto).
    destruct (Z.lt_ge_cases (resetTime entry) now) as [Hreset | Hin].
    + rewrite (checkRateLimit_reset u now m entry Hm Hreset).
      specialize (IH (<[u := {| count := 1; resetTime := now + 60000 |}]> m)
                    {| count := 1; resetTime := now + 60000 |}
                    (lookup_insert_eq _ _ _) ltac:(cbn; lia)).
      destruct (calls clock u _) as [oks m2].
      cbn [fst snd allowed_within count resetTime andb] in *.
      unfold span_bound, RATE_LIMIT, RATE_WINDOW_MS in *.
      destruct clock as [| next clock]; compare_all; cbn [andb]; lia.
    + destruct (Z.lt_ge_cases (count entry) 10) as [Hlow | Hfull].
      * rewrite (checkRateLimit_count u now m entry Hm Hin Hlow).
        specialize (IH (<[u := {| count := count entry + 1;
                                  resetTime := resetTime entry |}]> m)
                      {| count := count entry + 1; resetTime := resetTime entry |}
                      (lookup_insert_eq _ _ _) ltac:(cbn; lia)).
        destruct (calls clock u _) as [oks m2].
        cbn [fst snd allowed_within count resetTime andb] in *.
        unfold span_bound, RATE_LIMIT, RATE_WINDOW_MS in *.
        destruct clock as [| next clock]; compare_all; cbn [andb]; lia.
      * rewrite (checkRateLimit_deny u now m entry Hm Hin Hfull).
        specialize (IH m entry Hm Hc).
        destruct (calls clock u m) as [oks m2].
        cbn [fst snd allowed_within andb] in *.
        unfold span_bound, RATE_LIMIT, RATE_WINDOW_MS in *.
        destruct clock as [| next clock]; compare_all; lia.
Qed.

(** X4. The limiter is a fixed window, not a sliding one: if the clock
    readings of a user's calls never go back, at most 19 of the user's
    calls made within any span of 60 seconds are allowed (9 at the end of
    one window and 10 at the start of the next), whatever other users
    call in between. *)
Theorem at_most_19_allowed_in_60_seconds (u : jsstring) log m (from : Z) :
  Sorted Z.le (times_of u log) ->
  map_Forall (fun _ entry => 1 <= count entry <= 10) m ->
  (allowed_within from (times_of u log) (verdicts_of u log (requests log m).1)
   <= 19)%nat.
Proof.
  intros Hsorted Hm.
  destruct (other_users_do_not_interfere u log m m eq_refl) as [-> _].
  destruct (m !! u) as [entry |] eqn:Hu.
  - pose proof (allowed_within_span from u _ Hsorted m entry Hu
                  (map_Forall_lookup_1 _ _ _ _ Hm Hu)) as H.
    pose proof (span_bound_le from (count entry) (resetTime entry) (times_of u log)
                  (map_Forall_lookup_1 _ _ _ _ Hm Hu)).
    lia.
  - destruct (times_of u log) as [| now clock]; [cbn; lia |].
    cbn [calls]. rewrite (checkRateLimit_first u now m Hu).
    apply Sorted_inv in Hsorted as [Hsorted Hhd].
    pose proof (allowed_within_span from u clock Hsorted
                  (<[u := {| count := 1; resetTime := now + 60000 |}]> m)
                  {| count := 1; resetTime := now + 60000 |}
                  (lookup_insert_eq _ _ _) ltac:(cbn; lia)) as H.
    destruct (calls clock u _) as [oks m2].
    cbn [fst snd allowed_within count resetTime andb] in *.
    unfold span_bound, RATE_LIMIT, RATE_WINDOW_MS in *.
    destruct clock as [| next clock];
      [| assert (now <= next) by (now inversion Hhd)];
      compare_all; cbn [andb]; lia.
Qed.

End RateLimiterInvariants.

Lemma counts_stay_in_bounds_witness :
  map_Forall (fun _ entry => 1 <= count entry <= 10)
    (requests [ (0, js "a"); (1, js "b"); (2, js "a"); (70000, js "a") ] ∅).2.
Proof.
  apply (counts_stay_in_bounds _ ∅). apply map_Forall_empty.
Defined.

Lemma window_budget_witness :
  let log := [ (5, js "a"); (6, js "b"); (6, js "a"); (7, js "a"); (8, js "a") ] in
  let m : gmap jsstring limit := {[ js "a" := {| count := 8; resetTime := 100 |} ]} in
  verdicts_of (js "a") log (requests log m).1 = [true; true; false; false] /\
  (requests log m).2 !! js "a" = Some {| count := 10; resetTime := 100 |}.
Proof.
  apply (window_budget (js "a")
           [ (5, js "a"); (6, js "b"); (6, js "a"); (7, js "a"); (8, js "a") ]
           {[ js "a" := {| count := 8; resetTime := 100 |} ]}
           {| count := 8; resetTime := 100 |}).
  - reflexivity.
  - repeat constructor; cbn; lia.
  - cbn. lia.
Defined.

(** The bound of 19 is reached. *)
Example nineteen_allowed_in_60_seconds :
  let clock := [0; 59999; 59999; 59999; 59999; 59999; 59999; 59999; 59999; 59999;
                60001; 60001; 60001; 60001; 60001; 60001; 60001; 60001; 60001; 60001] in
  allowed_within 59999 clock (calls clock (js "a") ∅).1 = 19%nat.
Proof. vm_compute. reflexivity. Qed.

Lemma at_most_19_allowed_in_60_seconds_witness :
  let log := [ (0, js "a"); (59999, js "a"); (59999, js "b"); (60001, js "a") ] in
  (allowed_within 59999 (times_of (js "a") log)
     (verdicts_of (js "a") log (requests log ∅).1) <= 19)%nat.
Proof.
  apply (at_most_19_allowed_in_60_seconds (js "a") _ ∅ 59999).
  - repeat constructor; lia.
  - apply map_Forall_empty.
Defined.

(** ** The ai-diagnosis handler and its rate limiter *)

Section HandlerAndLimiter.

Variable Number_toString : number -> jsstring.
Local Abbreviation run := (serve Number_toString).
Local Abbreviation run_all := (serve_all Number_toString).

Implicit Types (e : env) (m : gmap jsstring limit).

(** What a request does to the rate-limit map, and when it is answered by
    the rate-limit guard. *)
Lemma serve_limiter e m :
  match authenticated e with
  | Some id =>
      rateLimitMap (run e m).2 = (checkRateLimit (Date_now e) id m).2 /\
      ((run e m).1 = rate_limited <-> (checkRateLimit (Date_now e) id m).1 = false)
  | None =>
      rateLimitMap (run e m).2 = m /\ (run e m).1 <> rate_limited
  end.
Proof.
  destruct e as [mth auth [uid aerr] now [rows rerr] rq key gw lerr].
  unfold authenticated, rate_limited.
  run_handler.
  all: split; [reflexivity |].
  all: try (intros H; vm_compute in H; discriminate H).
  all: split; intros H; try reflexivity; try discriminate H.
  all: vm_compute in H; discriminate H.
Qed.

(** X5. Every request of an authenticated user counts against the
    user's quota, whatever the handler answers afterwards, and no other
    request touches the rate-limit map. *)
Theorem quota_is_consumed e m :
  rateLimitMap (run e m).2
  = match authenticated e with
    | Some id => (checkRateLimit (Date_now e) id m).2
    | None => m
    end.
Proof.
  pose proof (serve_limiter e m) as H.
  destruct (authenticated e); apply H.
Qed.

(** X6. After any list of requests the rate-limit map is the one that
    the calls of [checkRateLimit] for the authenticated requests give, in
    the order of the requests. *)
Theorem serve_all_rateLimitMap (reqs : list env) m :
  (run_all reqs m).2 = (requests (limiter_log reqs) m).2.
Proof.
  revert m. induction reqs as [| e reqs IH]; intros m; [reflexivity |].
  cbn [serve_all limiter_log].
  pose proof (serve_limiter e m) as H.
  destruct (run e m) as [r s]. cbn [fst snd] in H.
  specialize (IH (rateLimitMap s)).
  destruct (run_all reqs (rateLimitMap s)) as [rs m'].
  cbn [snd] in *.
  destruct (authenticated e) as [id |]; destruct H as [H _].
  - cbn [requests]. destruct (checkRateLimit (Date_now e) id m) as [allowed m1].
    cbn [snd] in H. subst m1.
    destruct (requests (limiter_log reqs) (rateLimitMap s)). exact IH.
  - rewrite <- H. exact IH.
Qed.

(** X7. Of a list of authenticated requests served one after the other,
    those answered by the rate-limit guard are those that the limiter
    denies. *)
Theorem rate_limited_iff_denied (reqs : list env) m :
  Forall (fun e => is_Some (authenticated e)) reqs ->
  Forall2 (fun r allowed => r = rate_limited <-> allowed = false)
    (run_all reqs m).1 (requests (limiter_log reqs) m).1.
Proof.
  intros Hall. revert m.
  induction Hall as [| e reqs [id Hid] _ IH]; intros m; [constructor |].
  cbn [serve_all limiter_log].
  pose proof (serve_limiter e m) as H. rewrite Hid in H |- *.
  destruct (run e m) as [r s]. cbn [fst snd] in H.
  specialize (IH (rateLimitMap s)).
  destruct (run_all reqs (rateLimitMap s)) as [rs m'].
  cbn [requests].
  destruct (checkRateLimit (Date_now e) id m) as [allowed m1].
  cbn [fst snd] in *. destruct H as [Hs H]. rewrite Hs in IH.
  destruct (requests (limiter_log reqs) m1) as [oks m2].
  cbn [fst] in *. constructor; assumption.
Qed.

End HandlerAndLimiter.

Lemma rate_limited_iff_denied_witness :
  Forall2 (fun r allowed => r = rate_limited <-> allowed = false)
    (serve_all sample_Number_toString [urgent_env; patient_role_env] ∅).1
    (requests (limiter_log [urgent_env; patient_role_env]) ∅).1.
Proof.
  apply (rate_limited_iff_denied sample_Number_toString [urgent_env; patient_role_env] ∅).
  repeat constructor; vm_compute; eexists; reflexivity.
Defined.

(** ** The paths through the ai-diagnosis handler *)

Section HandlerPaths.

Variable Number_toString : number -> jsstring.
Local Abbreviation run := (serve Number_toString).

Implicit Types (e : env) (m : gmap jsstring limit).

(** X8. The external calls of a request come in one order, each at most
    once and none skipped: [getUser], the rate limiter, the role query,
    the request body, the model endpoint, the body of its reply, the
    audit insert; the handler stops after any of them. *)
Theorem external_calls_in_order e m :
  stages (trace (run e m).2) = seq 1 (length (stages (trace (run e m).2))).
Proof.
  destruct e as [mth auth [uid aerr] now [rows rerr] rq key gw lerr].
  run_handler; reflexivity.
Qed.


(** X10. The answers of the handler: 200 with no body for a preflight
    only, 200 with an analysis, an error message with one of six statuses,
    or 500 with the message of a caught exception. *)
Theorem diagnosis_response_classes e m :
  match body (run e m).1 with
  | NoBody => status (run e m).1 = 200 /\ method e = js "OPTIONS"
  | AnalysisBody _ => status (run e m).1 = 200
  | ErrorBody _ => In (status (run e m).1) [400; 401; 402; 403; 429; 500]
  | CaughtBody _ => status (run e m).1 = 500
  end.
Proof.
  destruct e as [mth auth [uid aerr] now [rows rerr] rq key gw lerr].
  run_handler; norm.
  all: first [ reflexivity
             | split; reflexivity
             | cbv [In]; repeat first [left; reflexivity | right] ].
Qed.

(** X11. When the model endpoint is called and cannot be reached, or the
    body of the request or of the reply cannot be read, the handler
    answers 500 with the message of the rejection, reads nothing further
    and writes no audit row. *)
Theorem rejection_is_answered_500 e m (message : jsstring) :
  (In req_json (trace (run e m).2) /\ request_json e = Rejects message) \/
  ((exists patientData, In (fetch_ai_gateway patientData) (trace (run e m).2)) /\
   ai_gateway e = Rejects message) \/
  (In aiResponse_json (trace (run e m).2) /\
   exists resp, ai_gateway e = Resolves resp /\ ai_json resp = Rejects message) ->
  (run e m).1 = {| status := 500; body := CaughtBody (Rejection message) |} /\
  last (trace (run e m).2) = Some (console error) /\
  forall uid name triage,
    ~ In (insert_access_logs uid name triage) (trace (run e m).2).
Proof.
  destruct e as [mth auth [uid aerr] now [rows rerr] rq key gw lerr].
  run_handler.
  all: intros [[Hin Hr] | [[[pd Hin] Hr] | [Hin (resp & Hr & Hj)]]];
    in_trace Hin; try discriminate Hr.
  all: try (injection Hr as <-); try discriminate Hj.
  all: try (injection Hr as <-); try (cbn in Hj; discriminate Hj).
  all: try (cbn in Hj; injection Hj as <-).
  all: split; [reflexivity |]; split; [reflexivity |];
    intros uid' name' triage' H; in_trace H.
Qed.


End HandlerPaths.

Lemma rejection_is_answered_500_witness :
  (serve sample_Number_toString gateway_down_env ∅).1
  = {| status := 500; body := CaughtBody (Rejection (js "error sending request")) |} /\
  last (trace (serve sample_Number_toString gateway_down_env ∅).2)
  = Some (console error) /\
  forall uid name triage,
    ~ In (insert_access_logs uid name triage)
        (trace (serve sample_Number_toString gateway_down_env ∅).2).
Proof.
  apply (rejection_is_answered_500 sample_Number_toString gateway_down_env ∅
           (js "error sending request")).
  right; left. split; [exists ann; event_in_trace | reflexivity].
Defined.



(** ** The chatbot handler *)

Ltac chat_simp :=
  cbv beta iota zeta
      delta [chat_bind chat_ret chat_respond chat_throw chat_emit chat_await
             chat_when chat_prop chat_checkRateLimit chat_status chat_body_of
             chat_rateLimitMap chat_trace chat_method chat_Authorization
             chat_getUser chat_Date_now openAIApiKey chat_request_json openai
             user authError ai_status ai_json fst snd app negb orb andb].

Lemma validRoles_includes_truthy (role : value) :
  validRoles_includes role = true -> truthy role = true.
Proof.
  destruct role as [| | | | s | |]; cbn; try discriminate.
  unfold jsstring_eqb. intros H. apply orb_true_iff in H.
  destruct H as [H | H]; apply bool_decide_eq_true in H; subst; reflexivity.
Qed.

(** The loop over the messages: no event, no change of state, and the first
    message that is not accepted decides. *)
Lemma validate_messages_spec (items : list value) (s : chat_state) :
  validate_messages items s
  = (match find (fun msg => negb (message_accepted msg)) items with
     | None => ChatValue tt
     | Some bad =>
         if nullish bad then ChatThrow ChatTypeError
         else if negb (validRoles_includes (get_opt bad (js "role"))) then
           ChatReturn {| chat_status := 400;
                         chat_body_of := ChatErrorBody (js "Invalid message role") |}
         else
           ChatReturn
             {| chat_status := 400;
                chat_body_of := ChatErrorBody
                  (js "Message content must be a string under 2000 characters") |}
     end, s).
Proof.
  induction items as [| msg items IH]; [reflexivity |].
  cbn [validate_messages find]. unfold message_accepted, get_opt.
  chat_simp.
  destruct (get msg (js "role")) as [role |] eqn:Hrole.
  2: { apply get_None in Hrole as [-> | ->]; reflexivity. }
  assert (nullish msg = false) as Hn by (destruct msg; cbn in *; congruence).
  assert (exists content, get msg (js "content") = Some content) as [content Hc]
      by (destruct msg; cbn in *; eauto; discriminate).
  rewrite Hc. cbn [from_option id].
  destruct (validRoles_includes role) eqn:Hv.
  - rewrite (validRoles_includes_truthy role Hv). cbn [negb orb andb].
    unfold content_refused.
    destruct content as [| | | | c | |]; cbn [negb];
      rewrite ?Hrole; cbn [from_option id]; rewrite ?Hn, ?Hv; cbn [negb];
      try reflexivity.
    rewrite Z.gtb_ltb, Z.leb_antisym.
    destruct (MAX_MESSAGE_LENGTH <? Z.of_nat (length c)); cbn [negb];
      [rewrite Hrole; cbn [from_option id]; rewrite Hn, Hv; reflexivity | apply IH].
  - cbn [andb negb].
    destruct (truthy role); rewrite Hrole; cbn [from_option id];
      rewrite Hn, Hv; reflexivity.
Qed.

Lemma message_accepted_iff (msg : value) :
  message_accepted msg = true <->
  (get_opt msg (js "role") = VStr (js "user") \/
   get_opt msg (js "role") = VStr (js "assistant")) /\
  exists content,
    get_opt msg (js "content") = VStr content /\ (length content <= 2000)%nat.
Proof.
  unfold message_accepted, validRoles_includes, jsstring_eqb, MAX_MESSAGE_LENGTH.
  rewrite andb_true_iff. split.
  - intros [Hr Hc]. split.
    + destruct (get_opt msg (js "role")); try discriminate.
      apply orb_true_iff in Hr as [H | H]; apply bool_decide_eq_true in H;
        subst; auto.
    + destruct (get_opt msg (js "content")) as [| | | | c | |]; try discriminate.
      exists c. split; [reflexivity | lia].
  - intros [Hr (c & -> & Hc)]. split; [| lia].
    destruct Hr as [-> | ->]; reflexivity.
Qed.

Lemma find_first_refused (good rest : list value) (bad : value) :
  Forall (fun msg => message_accepted msg = true) good ->
  message_accepted bad = false ->
  find (fun msg => negb (message_accepted msg)) (good ++ bad :: rest) = Some bad.
Proof.
  intros Hgood Hbad. induction Hgood as [| msg good Hmsg _ IH]; cbn [app find].
  - rewrite Hbad. reflexivity.
  - rewrite Hmsg. exact IH.
Qed.

(** All the paths through the chatbot handler, one goal each. *)
Ltac run_chat :=
  unfold chat_serve, chat_handler, chat_try_block; chat_simp;
  repeat (try rewrite validate_messages_spec; split_match; chat_simp).

Section Chatbot.

Implicit Types (e : chat_env) (m : gmap jsstring limit).

(** X13. The chatbot calls OpenAI only for a request that is no
    preflight, carries a valid token, is within the rate limit, finds the
    API key set, and sends at most 20 messages, each with the role user or
    assistant and a string of at most 2000 code units as content. *)
Theorem openai_call_only_after_guards e m (items : list value) :
  In (fetch_openai items) (chat_trace (chat_serve e m).2) ->
  chat_method e <> js "OPTIONS" /\
  absent (chat_Authorization e) = false /\
  authError (chat_getUser e) = None /\
  (exists id, user (chat_getUser e) = Some id /\
              (checkRateLimit (chat_Date_now e) id m).1 = true) /\
  absent (openAIApiKey e) = false /\
  (exists request,
      chat_request_json e = Resolves request /\
      get request (js "messages") = Some (VArr items)) /\
  (length items <= 20)%nat /\
  Forall (fun msg =>
            (get_opt msg (js "role") = VStr (js "user") \/
             get_opt msg (js "role") = VStr (js "assistant")) /\
            exists content,
              get_opt msg (js "content") = VStr content /\
              (length content <= 2000)%nat) items.
Proof.
  destruct e as [mth auth [uid aerr] now key rq gw].
  run_chat; intros Hin; in_trace Hin; injection Hin as ->; norm.
  all: split; [assumption |].
  all: do 2 (split; [reflexivity |]).
  all: split;
    [ eexists; split; [reflexivity |];
      match goal with H : checkRateLimit _ _ _ = _ |- _ => rewrite H end;
      reflexivity |].
  all: split; [reflexivity |].
  all: split; [eexists; split; [reflexivity | assumption] |].
  all: split;
    [ match goal with H : (_ >? _) = false |- _ =>
        unfold MAX_MESSAGES in H; lia end |].
  all: apply List.Forall_forall; intros msg Hmsg; apply message_accepted_iff;
    match goal with H : find _ _ = None |- _ =>
      apply (find_none _ _ H) in Hmsg end;
    apply negb_false_iff in Hmsg; exact Hmsg.
Qed.

(** X14. The answers of the chatbot: 200 with no body for a preflight
    only, 200 with the message, an error with status 400, 401 or 429, or
    the one answer of the [catch] block, which is the same for every
    exception and carries none of its text. *)
Theorem chat_response_classes e m :
  match chat_body_of (chat_serve e m).1 with
  | ChatNoBody =>
      chat_status (chat_serve e m).1 = 200 /\ chat_method e = js "OPTIONS"
  | ChatMessageBody _ => chat_status (chat_serve e m).1 = 200
  | ChatErrorBody _ =>
      In (chat_status (chat_serve e m).1) [400; 401; 429] \/
      (chat_serve e m).1 = generic_error
  end.
Proof.
  destruct e as [mth auth [uid aerr] now key rq gw].
  run_chat; norm.
  all: first [ reflexivity
             | split; reflexivity
             | right; reflexivity
             | left; cbv [In]; repeat first [left; reflexivity | right] ].
Qed.

(** X15. Of the messages of a request that has come as far as the loop,
    the first one that is not accepted decides: a wrong role is reported
    before a wrong content, a message that is [null] is answered by the
    [catch] block, and OpenAI is not called. *)
Theorem first_refused_message_decides e m (request : value)
    (good rest : list value) (bad : value) :
  In chat_req_json (chat_trace (chat_serve e m).2) ->
  chat_request_json e = Resolves request ->
  get request (js "messages") = Some (VArr (good ++ bad :: rest)) ->
  (length (good ++ bad :: rest) <= 20)%nat ->
  Forall (fun msg => message_accepted msg = true) good ->
  message_accepted bad = false ->
  (chat_serve e m).1
  = (if nullish bad then generic_error
     else if validRoles_includes (get_opt bad (js "role")) then
       {| chat_status := 400;
          chat_body_of := ChatErrorBody
            (js "Message content must be a string under 2000 characters") |}
     else
       {| chat_status := 400;
          chat_body_of := ChatErrorBody (js "Invalid message role") |}) /\
  forall items, ~ In (fetch_openai items) (chat_trace (chat_serve e m).2).
Proof.
  destruct e as [mth auth [uid aerr] now key rq gw].
  intros Hin Hr Hmsgs Hlen Hgood Hbad. cbn in Hr. subst rq.
  pose proof (find_first_refused good rest bad Hgood Hbad) as Hfind.
  assert ((Z.of_nat (length (good ++ bad :: rest)) >? MAX_MESSAGES) = false)
    as Hmax by (unfold MAX_MESSAGES; lia).
  clear Hlen Hgood. revert Hmsgs Hfind Hmax.
  generalize (good ++ bad :: rest). intros items Hmsgs Hfind Hmax.
  revert Hin. unfold chat_serve, chat_handler, chat_try_block. chat_simp.
  rewrite Hmsgs. chat_simp. rewrite Hmax.
  repeat (try rewrite validate_messages_spec; try rewrite Hfind;
          split_match; chat_simp).
  all: intros Hin; in_trace Hin.
  all: split; [reflexivity | intros items' H; in_trace H].
Qed.

(** X16. What the chatbot answers once OpenAI has replied: the message
    of the first choice with status 200, and the answer of the [catch]
    block in every other case; the status of a failed call is not passed
    on. *)
Theorem openai_reply e m (items : list value) (resp : ai_response) :
  In (fetch_openai items) (chat_trace (chat_serve e m).2) ->
  openai e = Resolves resp ->
  (chat_serve e m).1
  = if ok resp then
      match ai_json resp with
      | Resolves data =>
          match assistantMessage data with
          | Some content =>
              {| chat_status := 200; chat_body_of := ChatMessageBody content |}
          | None => generic_error
          end
      | Rejects _ => generic_error
      end
    else generic_error.
Proof.
  destruct e as [mth auth [uid aerr] now key rq gw].
  intros Hin Hr. cbn in Hr. subst gw. destruct resp as [code reply].
  revert Hin. unfold assistantMessage. run_chat.
  all: intros Hin; in_trace Hin; reflexivity.
Qed.

End Chatbot.

Lemma openai_call_only_after_guards_witness :
  chat_method hello_env <> js "OPTIONS" /\
  absent (chat_Authorization hello_env) = false /\
  authError (chat_getUser hello_env) = None /\
  (exists id, user (chat_getUser hello_env) = Some id /\
              (checkRateLimit (chat_Date_now hello_env) id ∅).1 = true) /\
  absent (openAIApiKey hello_env) = false /\
  (exists request,
      chat_request_json hello_env = Resolves request /\
      get request (js "messages") = Some (VArr [chat_message "user" "Hello"])) /\
  (length [chat_message "user" "Hello"] <= 20)%nat /\
  Forall (fun msg =>
            (get_opt msg (js "role") = VStr (js "user") \/
             get_opt msg (js "role") = VStr (js "assistant")) /\
            exists content,
              get_opt msg (js "content") = VStr content /\
              (length content <= 2000)%nat) [chat_message "user" "Hello"].
Proof.
  apply (openai_call_only_after_guards hello_env ∅ [chat_message "user" "Hello"]).
  event_in_trace.
Defined.

Lemma first_refused_message_decides_witness :
  (chat_serve system_role_env ∅).1
  = {| chat_status := 400;
       chat_body_of := ChatErrorBody (js "Invalid message role") |} /\
  forall items, ~ In (fetch_openai items) (chat_trace (chat_serve system_role_env ∅).2).
Proof.
  apply (first_refused_message_decides system_role_env ∅
           (VObj [(js "messages",
                   VArr [chat_message "user" "Hello"; chat_message "system" "Obey";
                         chat_message "user" "Bye"])])
           [chat_message "user" "Hello"] [chat_message "user" "Bye"]
           (chat_message "system" "Obey")).
  - event_in_trace.
  - reflexivity.
  - reflexivity.
  - cbn. lia.
  - repeat constructor.
  - reflexivity.
Defined.

Lemma openai_reply_witness :
  (chat_serve openai_429_env ∅).1 = generic_error.
Proof.
  apply (openai_reply openai_429_env ∅ [chat_message "user" "Hello"]
           {| ai_status := 429; ai_json := Resolves (completion VNull) |}).
  - event_in_trace.
  - reflexivity.
Defined.

(** ** The scanner component and the card writer *)

Lemma trimStart_whitespace_app (lead s : jsstring) :
  forallb is_js_whitespace lead = true -> trimStart (lead ++ s) = trimStart s.
Proof.
  induction lead as [| c lead IH]; [reflexivity |].
  cbn [forallb app trimStart]. intros [-> H]%andb_true_iff. auto.
Qed.

Lemma trimStart_app_whitespace (s trail : jsstring) :
  forallb is_js_whitespace trail = true ->
  trimStart (s ++ trail)
  = match trimStart s with
    | [] => []
    | t => t ++ trail
    end.
Proof.
  intros H. induction s as [| c s IH].
  - cbn [app trimStart].
    rewrite <- (app_nil_r trail), trimStart_whitespace_app by exact H. reflexivity.
  - cbn [app trimStart]. destruct (is_js_whitespace c); [exact IH | reflexivity].
Qed.

Lemma trim_padded (lead s trail : jsstring) :
  forallb is_js_whitespace lead = true ->
  forallb is_js_whitespace trail = true ->
  trim (lead ++ s ++ trail) = trim s.
Proof.
  intros Hl Ht. unfold trim.
  rewrite trimStart_whitespace_app, trimStart_app_whitespace by assumption.
  destruct (trimStart s) as [| c t]; [reflexivity |].
  unfold trimEnd. rewrite rev_app_distr, trimStart_whitespace_app; [reflexivity |].
  apply forallb_forall. intros x Hx%in_rev.
  now apply (proj1 (forallb_forall _ _) Ht).
Qed.

Lemma trim_unpadded (s : jsstring) :
  trimStart s = s -> trimStart (rev s) = rev s -> trim s = s.
Proof.
  intros H1 H2. unfold trim, trimEnd. rewrite H1, H2. apply rev_involutive.
Qed.

Section ScannerProperties.

Variable patientIdSchema_safeParse : jsstring -> bool.
Variable URL_pathname : jsstring -> option jsstring.

Local Abbreviation extract := (extractPatientId patientIdSchema_safeParse URL_pathname).
Local Abbreviation reading := (on_reading patientIdSchema_safeParse URL_pathname).
Local Abbreviation manual := (handleManualSubmit patientIdSchema_safeParse URL_pathname).
Local Abbreviation paste :=
  (handlePasteFromClipboard patientIdSchema_safeParse URL_pathname).

Lemma extract_checked (s id : jsstring) :
  extract s = Some id -> patientIdSchema_safeParse id = true.
Proof.
  intros [[H ->] | (_ & _ & _ & _ & H)]%extract_Some; exact H.
Qed.

Local Abbreviation checked_once := (checked_once patientIdSchema_safeParse).

Lemma checked_once_none (events : list ui_event) :
  scanned events = [] -> checked_once events.
Proof. unfold checked_once. intros ->. split; [constructor | cbn; lia]. Qed.

Lemma checked_once_one (events : list ui_event) (s id : jsstring) :
  extract s = Some id -> id <> [] -> scanned events = [id] -> checked_once events.
Proof.
  unfold checked_once. intros He Hid ->. split; [| cbn; lia].
  repeat constructor; [exact (extract_checked s id He) | exact Hid].
Qed.

(** X17. Whatever a card, the input field or the clipboard holds, the
    scan, submit and paste handlers pass on to [onPatientScanned] only an
    identifier that the UUID check accepts and that is not empty, and pass
    on at most one. *)
Theorem only_checked_ids_are_passed_on
    (records : list ndef_record) (manualInput : jsstring)
    (clipboard : awaited jsstring) :
  checked_once (reading records) /\
  checked_once (manual manualInput) /\
  checked_once (paste clipboard).
Proof.
  split; [| split].
  - induction records as [| record records IH];
      [now apply checked_once_none |].
    cbn [on_reading]. destruct (is_text_or_url record); [| exact IH].
    destruct (extract (decoded record)) as [[| c id] |] eqn:He;
      try now apply checked_once_none.
    now apply (checked_once_one _ (decoded record) (c :: id)).
  - unfold handleManualSubmit.
    destruct (extract manualInput) as [[| c id] |] eqn:He;
      try now apply checked_once_none.
    now apply (checked_once_one _ manualInput (c :: id)).
  - unfold handlePasteFromClipboard.
    destruct clipboard as [[| t text] | message];
      try now apply checked_once_none.
    destruct (extract (t :: text)) as [[| c id] |] eqn:He;
      try now apply checked_once_none.
    now apply (checked_once_one _ (t :: text) (c :: id)).
Qed.

(** X18. The listener of a scan decides on the first record of type
    text or url alone: records of other types before it are skipped, and
    no record after it is looked at, even when the first one is refused. *)
Theorem reading_decides_on_first_text_or_url (records : list ndef_record) :
  reading records = reading (firstn 1 (List.filter is_text_or_url records)).
Proof.
  induction records as [| record records IH]; [reflexivity |].
  cbn [on_reading List.filter].
  destruct (is_text_or_url record) eqn:Ht; [| exact IH].
  cbn [firstn on_reading]. rewrite Ht. reflexivity.
Qed.

(** X19. White space around the input does not matter to the extractor:
    a line end that a hardware reader types after the identifier, or
    blanks pasted with it, give the same result. *)
Theorem extractPatientId_ignores_padding (lead s trail : jsstring) :
  forallb is_js_whitespace lead = true ->
  forallb is_js_whitespace trail = true ->
  extract (lead ++ s ++ trail) = extract s.
Proof.
  intros Hl Ht. unfold extractPatientId.
  rewrite (trim_padded lead s trail Hl Ht). reflexivity.
Qed.

Hypothesis uuid_shape :
  forall s, patientIdSchema_safeParse s = true ->
            length s = 36%nat /\ forallb is_hex_or_dash s = true.

Hypothesis URL_scheme :
  forall s p, URL_pathname s = Some p -> In 0x3A%N s.

(** X20. A card written by the WriteNFC page for a patient whose
    identifier the UUID check accepts is read back by the scanner as that
    identifier, from the url record and from the text record alike. *)
Theorem written_card_scans_back (origin id : jsstring) :
  patientIdSchema_safeParse id = true ->
  trimStart origin = origin ->
  URL_pathname (patientUrl origin id) = Some (js "/patient/" ++ id) ->
  reading (written_records origin id)
  = [setIsScanning false; onPatientScanned id;
     toast_success (js "Patient card scanned successfully")] /\
  reading (rev (written_records origin id))
  = reading (written_records origin id).
Proof.
  intros Hid Horigin Hurl.
  destruct (uuid_shape id Hid) as [Hlen Hhex].
  assert (extract id = Some id) as Htext.
  { apply extract_Some. left. rewrite (trim_hex_or_dash id Hhex). auto. }
  destruct id as [| c id]; [discriminate Hlen |].
  assert (trim (patientUrl origin (c :: id)) = patientUrl origin (c :: id)) as Htrim.
  { apply trim_unpadded; cbn [patientUrl].
    - destruct origin as [| o origin]; [reflexivity |].
      cbn [app trimStart] in *.
      destruct (is_js_whitespace o) eqn:Ho; [| reflexivity].
      exfalso. clear -Horigin.
      assert (forall s : jsstring, (length (trimStart s) <= length s)%nat) as Hle.
      { induction s as [| x s IH]; cbn [trimStart]; [lia |].
        destruct (is_js_whitespace x); cbn [length]; lia. }
      specialize (Hle origin). rewrite Horigin in Hle. cbn [length] in Hle. lia.
    - rewrite !rev_app_distr.
      assert (trimStart (rev (c :: id)) = rev (c :: id)) as Hrev.
      { apply trimStart_hex_or_dash. apply forallb_forall.
        intros x Hx%in_rev. now apply (proj1 (forallb_forall _ _) Hhex). }
      destruct (rev (c :: id)) as [| x r] eqn:Hr.
      + apply (f_equal (@length N)) in Hr. rewrite length_rev in Hr. discriminate Hr.
      + cbn [app trimStart] in *.
        destruct (is_js_whitespace x); [| reflexivity].
        exfalso. clear -Hrev.
        assert (forall s : jsstring, (length (trimStart s) <= length s)%nat) as Hle.
        { induction s as [| y s IH]; cbn [trimStart]; [lia |].
          destruct (is_js_whitespace y); cbn [length]; lia. }
        specialize (Hle r). rewrite Hrev in Hle. cbn [length] in Hle. lia. }
  assert (extract (patientUrl origin (c :: id)) = Some (c :: id)) as Hscan.
  { apply extract_Some. right. rewrite Htrim.
    repeat split; try assumption.
    exact (URL_not_uuid _ _ uuid_shape URL_scheme _ _ Hurl). }
  unfold written_records. cbn [rev app on_reading is_text_or_url recordType decoded].
  change (jsstring_eqb (js "url") (js "text") || jsstring_eqb (js "url") (js "url"))
    with true.
  change (jsstring_eqb (js "text") (js "text") || jsstring_eqb (js "text") (js "url"))
    with true.
  cbv iota. rewrite Hscan, Htext. split; reflexivity.
Qed.

End ScannerProperties.

(** X21. The card lookup asks the database only for a card number that
    is not blank; it then always ends by resetting [isLookingUp], and it
    passes on the [patient_id] of the row found, which no UUID check has
    seen, exactly when the query gives a row and no error. *)
Theorem handleUuidCardLookup_outcomes (uuidCardInput : jsstring)
    (query : jsstring -> awaited card_lookup) :
  let events := handleUuidCardLookup uuidCardInput query in
  (trim uuidCardInput = [] ->
   events = [toast_error (js "Enter a UUID card number")]) /\
  (trim uuidCardInput <> [] ->
   head events = Some (setIsLookingUp true) /\
   last events = Some (setIsLookingUp false) /\
   In (select_nfc_cards (trim uuidCardInput)) events /\
   forall id,
     In (onPatientScanned id) events <->
     query (trim uuidCardInput)
     = Resolves {| patient_id := Some id; lookup_error := None |}).
Proof.
  cbv zeta. unfold handleUuidCardLookup.
  destruct (trim uuidCardInput) as [| c cardNumber]; split; try congruence.
  intros _.
  destruct (query (c :: cardNumber)) as [[[id' |] [err |]] | message];
    cbn [app head last]; (split; [reflexivity |]); (split; [reflexivity |]);
    (split; [cbv [In]; auto |]); intros id; cbv [In];
    split; intros H; try discriminate H;
    repeat match goal with
      | H : _ \/ _ |- _ => destruct H as [H | H]
      end; try discriminate H; try contradiction.
  - injection H as ->. reflexivity.
  - injection H as ->. auto.
Qed.

Lemma extractPatientId_ignores_padding_witness :
  extractPatientId zod_uuid sample_URL_pathname
    ([0x20; 0x09]%N ++ js "123e4567-e89b-12d3-a456-426614174000" ++ [0x0D; 0x0A]%N)
  = extractPatientId zod_uuid sample_URL_pathname
      (js "123e4567-e89b-12d3-a456-426614174000").
Proof.
  apply (extractPatientId_ignores_padding zod_uuid sample_URL_pathname
           [0x20; 0x09]%N (js "123e4567-e89b-12d3-a456-426614174000")
           [0x0D; 0x0A]%N); reflexivity.
Defined.

Lemma written_card_scans_back_witness :
  on_reading zod_uuid sample_URL_pathname
    (written_records (js "https://example.com")
       (js "123e4567-e89b-12d3-a456-426614174000"))
  = [setIsScanning false;
     onPatientScanned (js "123e4567-e89b-12d3-a456-426614174000");
     toast_success (js "Patient card scanned successfully")] /\
  on_reading zod_uuid sample_URL_pathname
    (rev (written_records (js "https://example.com")
            (js "123e4567-e89b-12d3-a456-426614174000")))
  = on_reading zod_uuid sample_URL_pathname
      (written_records (js "https://example.com")
         (js "123e4567-e89b-12d3-a456-426614174000")).
Proof.
  apply (written_card_scans_back zod_uuid sample_URL_pathname
           zod_uuid_shape sample_URL_pathname_colon
           (js "https://example.com") (js "123e4567-e89b-12d3-a456-426614174000"));
    vm_compute; reflexivity.
Defined.

Lemma handleUuidCardLookup_outcomes_witness :
  let events :=
    handleUuidCardLookup (js " card-7 ") (fun _ => Rejects (js "offline")) in
  head events = Some (setIsLookingUp true) /\
  last events = Some (setIsLookingUp false) /\
  In (select_nfc_cards (trim (js " card-7 "))) events /\
  forall id,
    In (onPatientScanned id) events <->
    Rejects (js "offline")
    = Resolves {| patient_id := Some id; lookup_error := None |}.
Proof.
  apply (proj2 (handleUuidCardLookup_outcomes (js " card-7 ")
                  (fun _ => Rejects (js "offline")))).
  vm_compute. discriminate.
Defined.
